(** * Egyptian Ratscrew: the turn loop of [simulate_game]

    A shallow embedding of [egyptian-ratscrew.ipynb]: the card model
    ([Card], [royal], [new_deck]), [deal], [slappable] and the loop of
    [simulate_game].  Python lists and deques are lists written left to
    right, so the top of a hand or of the pile is the LAST element
    ([pop()] takes it, [append] adds it) and [extendleft] adds at the head.

    The nested loop of [simulate_game] is a transition system on
    configurations: a configuration is a program point of the loop body
    together with the local variables.  The two collaborators are
    parameters: [shuffle], the permutation [random.shuffle] applies to the
    deck, and [slap], the arbiter, given as the answer of its k-th call. *)

From Stdlib Require Import List ZArith Lia Bool Arith Permutation.
Import ListNotations.

Set Implicit Arguments.

(** ** Cards *)

Module Cards.

(** [Card.face] is an int for the pip cards and a string for the royals. *)
Inductive Face : Type :=
| Num (n : Z)
| Jack
| Queen
| King
| Ace.

Inductive Suite : Type :=
| Clubs
| Diamonds
| Hearts
| Spades.

(** [Card = namedtuple('Card', ['face', 'suite'])] *)
Record Card : Type := mkCard { face : Face; suite : Suite }.

Definition Face_eqb (a b : Face) : bool :=
  match a, b with
  | Num x, Num y => Z.eqb x y
  | Jack, Jack | Queen, Queen | King, King | Ace, Ace => true
  | _, _ => false
  end.

(** [royal = {'Jack': 1, 'Queen': 2, 'King': 3, 'Ace': 4}]; [royal f] is
    the lookup [royal[f]], and is [None] exactly when [f in royal] is
    false. *)
Definition royal (f : Face) : option Z :=
  match f with
  | Num _ => None
  | Jack => Some 1%Z
  | Queen => Some 2%Z
  | King => Some 3%Z
  | Ace => Some 4%Z
  end.

(** [chain(range(2, 10 + 1), royal)] *)
Definition faces : list Face :=
  map Num [2; 3; 4; 5; 6; 7; 8; 9; 10]%Z ++ [Jack; Queen; King; Ace].

Definition suites : list Suite := [Clubs; Diamonds; Hearts; Spades].

(** [new_deck()]: for each face, for each suite, append the card. *)
Definition new_deck : list Card :=
  flat_map (fun f => map (fun s => mkCard f s) suites) faces.

End Cards.
Export Cards.

(** ** Python sequences *)

Module Py.

Section Seq.
Context {A : Type}.

(** [l.pop()]: the last element and the rest; [None] on an empty list. *)
Definition pop (l : list A) : option (A * list A) :=
  match rev l with
  | [] => None
  | x :: r => Some (x, rev r)
  end.

(** [l[-k]] for [k >= 1], given that the caller has checked the length. *)
Definition neg_index (l : list A) (k : nat) : option A :=
  nth_error (rev l) (k - 1).

(** [reversed(l)] *)
Definition reversed (l : list A) : list A := rev l.

(** [d.extendleft(it)]: the items of [it] are pushed on the left one after
    the other. *)
Definition extendleft (d : list A) (it : list A) : list A :=
  fold_left (fun acc x => x :: acc) it d.

(** [l[i] = v] on a list of known length, nothing out of range. *)
Fixpoint set_nth (i : nat) (v : A) (l : list A) : list A :=
  match l, i with
  | [], _ => []
  | _ :: t, O => v :: t
  | h :: t, S j => h :: set_nth j v t
  end.

End Seq.

(** [l[i]] for a Python int [i] on a list of length [n]: the position
    read, or [None] where Python raises [IndexError].  Negative indices
    count from the end. *)
Definition index (n : nat) (i : Z) : option nat :=
  if ((0 <=? i) && (i <? Z.of_nat n))%Z then Some (Z.to_nat i)
  else if ((i <? 0) && (- Z.of_nat n <=? i))%Z then Some (Z.to_nat (Z.of_nat n + i))
  else None.

(** [np.argmax(l)]: the first position of the maximum. *)
Fixpoint argmax_from (best_i best : nat) (i : nat) (l : list nat) : nat :=
  match l with
  | [] => best_i
  | x :: t => if best <? x then argmax_from i x (S i) t
              else argmax_from best_i best (S i) t
  end.

Definition argmax (l : list nat) : nat :=
  match l with
  | [] => 0
  | x :: t => argmax_from 0 x 1 t
  end.

End Py.

(** ** deal *)

Definition Hand := list Card.

(** [hands[i].append(c)] *)
Definition append_to (hands : list Hand) (i : nat) (c : Card) : list Hand :=
  match nth_error hands i with
  | Some h => Py.set_nth i (h ++ [c]) hands
  | None => hands
  end.

(** The loop [for hand in cycle(hands): if not deck: return hands;
    hand.append(deck.pop())].  [popped] lists the cards in the order
    [deck.pop()] yields them (the deck from its end), [i] is the position
    [cycle] has reached. *)
Fixpoint deal_loop (n : nat) (popped : list Card) (i : nat)
         (hands : list Hand) : list Hand :=
  match popped with
  | [] => hands
  | new_card :: rest =>
      deal_loop n rest (S i mod n) (append_to hands i new_card)
  end.

(** [deal(deck, num_players)].  With no hands [cycle(hands)] is empty, the
    loop body never runs and the empty list of hands is returned. *)
Definition deal (shuffle : list Card -> list Card) (deck : list Card)
           (num_players : Z) : list Hand :=
  let deck := shuffle deck in
  let hands := repeat ([] : Hand) (Z.to_nat num_players) in
  match hands with
  | [] => hands
  | _ => deal_loop (Z.to_nat num_players) (rev deck) 0 hands
  end.

(** ** slappable *)

Definition same_face (a b : option Card) : bool :=
  match a, b with
  | Some x, Some y => Face_eqb (face x) (face y)
  | _, _ => false
  end.

Definition slappable (pile : list Card) : bool :=
  if (1 <? length pile) && same_face (Py.neg_index pile 1) (Py.neg_index pile 2)
  then true
  else if (2 <? length pile) && same_face (Py.neg_index pile 1) (Py.neg_index pile 3)
  then true
  else false.

(** ** simulate_game *)

Module Game.

(** The local variables of [simulate_game]; [slap_calls] counts the calls
    made to the arbiter so far. *)
Record State : Type := mkState {
  hands : list Hand;
  pile : list Card;
  chances : Z;
  challenger : option nat;
  slap_calls : nat
}.

(** Program points of the loop body.  At each of them [hand] is
    [hands[hand_index]], the deque bound at the top of the iteration: it
    is read from the state every time, so a pile pushed under it is seen. *)
Inductive Loc : Type :=
| AtFor                       (* top of the body of the [for] loop *)
| AtWhile                     (* the test of the [while] loop *)
| AfterPush (new_card : Card) (* in the [while] body, before [if slappable(pile)] *)
| AfterWhile.                 (* the [if chances == 0] after the [while] loop *)

Record Config : Type := mkConfig {
  loc : Loc;
  turn : nat;
  st : State
}.

Inductive Exn : Type :=
| IndexError
| TypeError.

Inductive Outcome : Type :=
| Next (c : Config)
| Return (turn winner : nat)
| Raise (e : Exn).

(** [sum(len(hand) > 0 for hand in hands)] *)
Definition nonempty_count (hs : list Hand) : nat :=
  length (filter (fun h => 0 <? length h) hs).

(** [hands[i].extendleft(reversed(pile))] *)
Definition give_pile (hs : list Hand) (i : nat) (p : list Card) : list Hand :=
  match nth_error hs i with
  | Some h => Py.set_nth i (Py.extendleft h (Py.reversed p)) hs
  | None => hs
  end.

Section Loop.
Variable num_players : nat.
Variable slap : nat -> Z.

(** [hand_index] of the iteration numbered [turn] of
    [enumerate(cycle(range(num_players)), start=1)]. *)
Definition hand_index (turn : nat) : nat := (turn - 1) mod num_players.

Definition step (c : Config) : Outcome :=
  let s := st c in
  let i := hand_index (turn c) in
  match nth_error (hands s) i with
  | None => Raise IndexError
  | Some hand =>
    match loc c with
    | AtFor =>
        if nonempty_count (hands s) =? 1
        then Return (turn c) (Py.argmax (map (@length Card) (hands s)))
        else
          match Py.pop hand with
          | None => Next (mkConfig AtFor (S (turn c)) s)          (* continue *)
          | Some (new_card, rest) =>
              match challenger s with
              | None =>
                  let hs := Py.set_nth i rest (hands s) in
                  let p := pile s ++ [new_card] in
                  match royal (face new_card) with
                  | Some v =>
                      Next (mkConfig AtFor (S (turn c))
                              (mkState hs p v (Some i) (slap_calls s)))
                  | None =>
                      Next (mkConfig AtFor (S (turn c))
                              (mkState hs p (chances s) None (slap_calls s)))
                  end
              | Some _ => Next (mkConfig AtWhile (turn c) s)
              end
          end
    | AtWhile =>
        if (0 <? chances s)%Z
        then
          match Py.pop hand with
          | Some (new_card, rest) =>
              Next (mkConfig (AfterPush new_card) (turn c)
                      (mkState (Py.set_nth i rest (hands s))
                               (pile s ++ [new_card])
                               (chances s - 1)
                               (challenger s) (slap_calls s)))
          | None => Next (mkConfig AfterWhile (turn c) s)
          end
        else Next (mkConfig AfterWhile (turn c) s)
    | AfterPush new_card =>
        if slappable (pile s)
        then
          let slapper := slap (slap_calls s) in
          match Py.index (length (hands s)) slapper with
          | None => Raise IndexError
          | Some j =>
              Next (mkConfig AfterWhile (turn c)
                      (mkState (give_pile (hands s) j (pile s)) [] 0
                               (challenger s) (S (slap_calls s))))    (* break *)
          end
        else
          match royal (face new_card) with
          | Some v =>
              Next (mkConfig AfterWhile (turn c)
                      (mkState (hands s) (pile s) v (Some i) (slap_calls s))) (* break *)
          | None => Next (mkConfig AtWhile (turn c) s)
          end
    | AfterWhile =>
        if (chances s =? 0)%Z
        then
          match challenger s with
          | None => Raise TypeError
          | Some ch =>
              match nth_error (hands s) ch with
              | None => Raise IndexError
              | Some _ =>
                  Next (mkConfig AtFor (S (turn c))
                          (mkState (give_pile (hands s) ch (pile s)) []
                                   (chances s) None (slap_calls s)))
              end
          end
        else Next (mkConfig AtFor (S (turn c)) s)
    end
  end.

(** What a run has come to after some steps. *)
Inductive Result : Type :=
| Running                          (* the loop has not returned yet *)
| Returned (turn winner : nat)     (* [return turn, np.argmax(...)] *)
| ReturnedNone                     (* the [for] loop ran out: [None] *)
| Raised (e : Exn).

(** [run fuel c]: at most [fuel] steps from [c]; the configuration the
    run stopped in and what it came to. *)
Fixpoint run (fuel : nat) (c : Config) : Config * Result :=
  match fuel with
  | O => (c, Running)
  | S fuel' =>
      match step c with
      | Next c' => run fuel' c'
      | Return t w => (c, Returned t w)
      | Raise e => (c, Raised e)
      end
  end.

End Loop.

(** The locals before the first iteration. *)
Definition init (shuffle : list Card -> list Card) (num_players : Z) : Config :=
  mkConfig AtFor 1 (mkState (deal shuffle new_deck num_players) [] 0 None 0).

(** [simulate_game(num_players, slap)], cut after [fuel] steps of the
    loop.  With [num_players <= 0] the range is empty, [cycle] yields
    nothing, and the function falls off its end. *)
Definition simulate (shuffle : list Card -> list Card) (num_players : Z)
           (slap : nat -> Z) (fuel : nat) : Config * Result :=
  match Z.to_nat num_players with
  | O => (init shuffle num_players, ReturnedNone)
  | n => run n slap fuel (init shuffle num_players)
  end.

Definition simulate_game shuffle num_players slap fuel : Result :=
  snd (simulate shuffle num_players slap fuel).

End Game.
Export Game.

(** * Properties *)

(** ** Python sequences *)

Section PyFacts.
Context {A : Type}.

Lemma pop_snoc (l : list A) (x : A) : Py.pop (l ++ [x]) = Some (x, l).
Proof.
  unfold Py.pop. rewrite rev_app_distr. simpl. now rewrite rev_involutive.
Qed.

Lemma pop_nil : Py.pop (@nil A) = None.
Proof. reflexivity. Qed.

Lemma pop_some (l r : list A) (x : A) :
  Py.pop l = Some (x, r) -> l = r ++ [x].
Proof.
  unfold Py.pop. destruct (rev l) as [|y t] eqn:E; [discriminate|].
  intros H. inversion H; subst.
  rewrite <- (rev_involutive l), E. reflexivity.
Qed.

Lemma pop_none (l : list A) : Py.pop l = None -> l = [].
Proof.
  unfold Py.pop. destruct (rev l) eqn:E; [|discriminate].
  intros _. rewrite <- (rev_involutive l), E. reflexivity.
Qed.

Lemma extendleft_app (d it : list A) : Py.extendleft d it = rev it ++ d.
Proof.
  unfold Py.extendleft. revert d.
  induction it as [|x it IH]; intros d; simpl; [reflexivity|].
  rewrite IH, <- app_assoc. reflexivity.
Qed.

Lemma extendleft_reversed (d p : list A) :
  Py.extendleft d (Py.reversed p) = p ++ d.
Proof. unfold Py.reversed. now rewrite extendleft_app, rev_involutive. Qed.

Lemma set_nth_length (i : nat) (v : A) (l : list A) :
  length (Py.set_nth i v l) = length l.
Proof.
  revert i. induction l as [|h t IH]; intros [|i]; simpl; auto.
Qed.

Lemma set_nth_same (i : nat) (v : A) (l : list A) :
  nth_error l i = Some v -> Py.set_nth i v l = l.
Proof.
  revert i. induction l as [|h t IH]; intros [|i]; simpl; try discriminate.
  - now intros [= ->].
  - intros H. now rewrite IH.
Qed.

Lemma nth_error_set_nth_eq (i : nat) (v : A) (l : list A) :
  i < length l -> nth_error (Py.set_nth i v l) i = Some v.
Proof.
  revert i. induction l as [|h t IH]; intros [|i]; simpl; try lia; auto.
  intros H. apply IH. lia.
Qed.

Lemma nth_error_set_nth_neq (i j : nat) (v : A) (l : list A) :
  i <> j -> nth_error (Py.set_nth i v l) j = nth_error l j.
Proof.
  revert i j. induction l as [|h t IH]; intros [|i] [|j]; simpl; try congruence; auto.
Qed.

End PyFacts.

Lemma concat_set_nth (A : Type) (hs : list (list A)) (i : nat) (h h' : list A) :
  nth_error hs i = Some h ->
  Permutation (h ++ concat (Py.set_nth i h' hs)) (h' ++ concat hs).
Proof.
  revert i. induction hs as [|x t IH]; intros [|i]; simpl; try discriminate.
  - intros [= ->]. rewrite !app_assoc. apply Permutation_app_tail, Permutation_app_comm.
  - intros H. specialize (IH _ H).
    rewrite !app_assoc.
    rewrite (Permutation_app_comm h x), (Permutation_app_comm h' x).
    rewrite <- !app_assoc. now apply Permutation_app_head.
Qed.

Lemma Face_eqb_eq (a b : Face) : Face_eqb a b = true <-> a = b.
Proof.
  destruct a, b; simpl; split; try congruence; try reflexivity.
  - intros H. apply Z.eqb_eq in H. now subst.
  - intros [= ->]. apply Z.eqb_refl.
Qed.

Lemma royal_range (f : Face) (v : Z) : royal f = Some v -> (1 <= v <= 4)%Z.
Proof. destruct f; simpl; intros [= <-]; lia. Qed.

(** ** The slap detector *)

Lemma slappable_rev (pile : list Card) :
  slappable pile =
  match rev pile with
  | b :: a :: rest =>
      Face_eqb (face b) (face a) ||
      match rest with
      | m :: _ => Face_eqb (face b) (face m)
      | [] => false
      end
  | _ => false
  end.
Proof.
  unfold slappable, Py.neg_index. rewrite <- (length_rev pile).
  destruct (rev pile) as [|b [|a [|m rest]]]; simpl;
    repeat match goal with
           | |- context [Face_eqb ?x ?y] => destruct (Face_eqb x y)
           end; reflexivity.
Qed.

(** C8.  [slappable] is true exactly on the piles whose top two cards
    share a face or whose top and third-from-top cards share a face; it
    is false on piles of fewer than two cards; and it reads faces only:
    relabelling the suites of the pile does not change its answer. *)
Theorem C8_slappable_iff :
  (forall pile : list Card,
      slappable pile = true <->
      ((exists pre a b, pile = pre ++ [a; b] /\ face a = face b) \/
       (exists pre a m b, pile = pre ++ [a; m; b] /\ face a = face b))) /\
  (forall pile : list Card, length pile <= 1 -> slappable pile = false) /\
  (forall (g : Card -> Suite) (pile : list Card),
      slappable (map (fun c => mkCard (face c) (g c)) pile) = slappable pile).
Proof.
  split; [|split].
  - intros pile. rewrite slappable_rev. split.
    + destruct (rev pile) as [|b [|a rest]] eqn:E; try discriminate.
      intros H. apply orb_true_iff in H. destruct H as [H|H].
      * left. exists (rev rest), a, b. split.
        -- rewrite <- (rev_involutive pile), E. simpl.
           now rewrite <- app_assoc.
        -- apply Face_eqb_eq in H. congruence.
      * destruct rest as [|m rest]; [discriminate|].
        right. exists (rev rest), m, a, b. split.
        -- rewrite <- (rev_involutive pile), E. simpl.
           now rewrite <- !app_assoc.
        -- apply Face_eqb_eq in H. congruence.
    + intros [(pre & a & b & -> & F)|(pre & a & m & b & -> & F)];
        rewrite rev_app_distr; simpl.
      * apply orb_true_iff. left. apply Face_eqb_eq. congruence.
      * apply orb_true_iff. right. apply Face_eqb_eq. congruence.
  - intros pile H. rewrite slappable_rev.
    rewrite <- length_rev in H.
    destruct (rev pile) as [|b [|a rest]]; simpl in *; try reflexivity; lia.
  - intros g pile. rewrite !slappable_rev, <- map_rev.
    destruct (rev pile) as [|b [|a [|m rest]]]; reflexivity.
Qed.

(** ** Cards are conserved *)

(** Every card a state holds: the hands, then the pile. *)
Definition all_cards (s : State) : list Card := concat (hands s) ++ pile s.

Lemma concat_take_card (hs : list Hand) (i : nat) (r : Hand) (x : Card) (p : list Card) :
  nth_error hs i = Some (r ++ [x]) ->
  Permutation (concat (Py.set_nth i r hs) ++ (p ++ [x])) (concat hs ++ p).
Proof.
  intros H. pose proof (concat_set_nth hs i r H) as P.
  rewrite <- app_assoc in P. apply Permutation_app_inv_l in P. simpl in P.
  rewrite <- P. simpl. rewrite app_assoc.
  symmetry. apply Permutation_cons_append.
Qed.

Lemma concat_give_pile (hs : list Hand) (j : nat) (p : list Card) :
  j < length hs ->
  Permutation (concat (give_pile hs j p)) (concat hs ++ p).
Proof.
  intros Hj. unfold give_pile.
  destruct (nth_error hs j) as [h|] eqn:E.
  - rewrite extendleft_reversed.
    pose proof (concat_set_nth hs j (p ++ h) E) as P.
    apply (Permutation_app_inv_l h). rewrite P.
    rewrite <- app_assoc, (Permutation_app_comm p), <- app_assoc.
    reflexivity.
  - apply nth_error_None in E. lia.
Qed.

Lemma give_pile_length (hs : list Hand) (j : nat) (p : list Card) :
  length (give_pile hs j p) = length hs.
Proof.
  unfold give_pile. destruct (nth_error hs j); [apply set_nth_length|reflexivity].
Qed.

Lemma give_pile_nil (hs : list Hand) (j : nat) : give_pile hs j [] = hs.
Proof.
  unfold give_pile. destruct (nth_error hs j) as [h|] eqn:E; [|reflexivity].
  rewrite extendleft_reversed. now apply set_nth_same.
Qed.

Lemma index_lt (n : nat) (i : Z) (j : nat) : Py.index n i = Some j -> j < n.
Proof.
  unfold Py.index.
  destruct ((0 <=? i) && (i <? Z.of_nat n))%Z eqn:A.
  - intros [= <-]. apply andb_true_iff in A. destruct A as [A B].
    apply Z.leb_le in A. apply Z.ltb_lt in B. lia.
  - destruct ((i <? 0) && (- Z.of_nat n <=? i))%Z eqn:B; [|discriminate].
    intros [= <-]. apply andb_true_iff in B. destruct B as [B C].
    apply Z.ltb_lt in B. apply Z.leb_le in C. lia.
Qed.

(** What the loop keeps true of its locals: the number of hands, a
    challenger that is a player, and a challenge in progress inside the
    [else] branch. *)
Record wf (n : nat) (c : Config) : Prop := mkWf {
  wf_hands : length (hands (st c)) = n;
  wf_challenger : forall ch, challenger (st c) = Some ch -> ch < n;
  wf_loc : loc c <> AtFor -> challenger (st c) <> None;
  wf_turn : 1 <= turn c
}.

Ltac step_cases H :=
  unfold step in H;
  repeat match type of H with
         | context [match ?x with _ => _ end] =>
             let E := fresh "E" in destruct x eqn:E
         | context [if ?x then _ else _] =>
             let E := fresh "E" in destruct x eqn:E
         end;
  try discriminate H;
  try (injection H as H; subst).

Lemma hand_index_lt (n t : nat) : 0 < n -> hand_index n t < n.
Proof. intros H. unfold hand_index. apply Nat.mod_upper_bound. lia. Qed.

Lemma step_wf (n : nat) (slap : nat -> Z) (c c' : Config) :
  0 < n -> wf n c -> step n slap c = Next c' -> wf n c'.
Proof.
  intros Hn [L C W T] H. pose proof (hand_index_lt (turn c) Hn) as Hi.
  step_cases H; constructor; simpl in *;
    rewrite ?set_nth_length, ?give_pile_length;
    try assumption; try lia; try congruence;
    try (intros ch [= <-]; assumption);
    try (intros ch Hc; apply C; congruence);
    try (intros _; first [apply W; discriminate | congruence]).
Qed.

Lemma step_all_cards (n : nat) (slap : nat -> Z) (c c' : Config) :
  step n slap c = Next c' ->
  Permutation (all_cards (st c')) (all_cards (st c)).
Proof.
  intros H. unfold all_cards.
  step_cases H; simpl; try reflexivity;
    try match goal with
        | E : Py.pop _ = Some _ |- _ => apply pop_some in E; subst
        end;
    try (now apply concat_take_card).
  - rewrite app_nil_r. apply concat_give_pile.
    eapply index_lt; eassumption.
  - rewrite app_nil_r. apply concat_give_pile.
    apply nth_error_Some. congruence.
Qed.

(** *** Dealing *)

Lemma append_to_spec (hs : list Hand) (i : nat) (c : Card) :
  i < length hs ->
  length (append_to hs i c) = length hs /\
  Permutation (concat (append_to hs i c)) (concat hs ++ [c]).
Proof.
  intros Hi. unfold append_to.
  destruct (nth_error hs i) as [h|] eqn:E.
  - split; [apply set_nth_length|].
    pose proof (concat_set_nth hs i (h ++ [c]) E) as P.
    apply (Permutation_app_inv_l h). rewrite P.
    rewrite <- app_assoc. apply Permutation_app_head, Permutation_app_comm.
  - apply nth_error_None in E. lia.
Qed.

Lemma deal_loop_spec (n : nat) (popped : list Card) :
  0 < n ->
  forall (i : nat) (hs : list Hand),
    i < n -> length hs = n ->
    length (deal_loop n popped i hs) = n /\
    Permutation (concat (deal_loop n popped i hs)) (concat hs ++ popped).
Proof.
  intros Hn. induction popped as [|c rest IH]; intros i hs Hi Hl; simpl.
  - split; [assumption|]. now rewrite app_nil_r.
  - destruct (@append_to_spec hs i c) as [L P]; [lia|].
    destruct (IH (S i mod n) (append_to hs i c)) as [L' P'].
    + apply Nat.mod_upper_bound. lia.
    + lia.
    + split; [assumption|].
      rewrite P', P, <- app_assoc. reflexivity.
Qed.

Lemma concat_repeat_nil (A : Type) (n : nat) : concat (repeat (@nil A) n) = [].
Proof. induction n; simpl; auto. Qed.

Lemma deal_spec (shuffle : list Card -> list Card) (deck : list Card) (num_players : Z) :
  (0 < num_players)%Z ->
  length (deal shuffle deck num_players) = Z.to_nat num_players /\
  Permutation (concat (deal shuffle deck num_players)) (shuffle deck).
Proof.
  intros Hn. unfold deal.
  destruct (Z.to_nat num_players) as [|m] eqn:E; [lia|].
  set (hs := repeat ([] : Hand) (S m)).
  change (match hs with [] => hs | _ :: _ => deal_loop (S m) (rev (shuffle deck)) 0 hs end)
    with (deal_loop (S m) (rev (shuffle deck)) 0 hs).
  destruct (@deal_loop_spec (S m) (rev (shuffle deck)) (Nat.lt_0_succ m) 0 hs)
    as [L P]; try lia.
  - unfold hs. apply repeat_length.
  - split; [assumption|].
    rewrite P. unfold hs. rewrite concat_repeat_nil. simpl.
    symmetry. apply Permutation_rev.
Qed.

Lemma deal_nonpositive (shuffle : list Card -> list Card) (deck : list Card) (num_players : Z) :
  (num_players <= 0)%Z -> deal shuffle deck num_players = [].
Proof.
  intros H. unfold deal.
  replace (Z.to_nat num_players) with 0 by lia. reflexivity.
Qed.

Lemma new_deck_NoDup : NoDup new_deck.
Proof.
  assert (D : forall a b : Card, {a = b} + {a <> b}).
  { decide equality; decide equality; apply Z.eq_dec. }
  repeat (constructor;
          [ let H := fresh in intros H; simpl in H;
            repeat (destruct H as [H|H]; [discriminate H|]); exact H | ]).
  constructor.
Qed.

Lemma new_deck_length : length new_deck = 52.
Proof. reflexivity. Qed.

(** *** Runs *)

Lemma run_inv (n : nat) (slap : nat -> Z) (P : Config -> Prop) :
  (forall c c', P c -> step n slap c = Next c' -> P c') ->
  forall fuel c, P c -> P (fst (run n slap fuel c)).
Proof.
  intros HP. induction fuel as [|fuel IH]; intros c Hc; simpl; [assumption|].
  destruct (step n slap c) as [c'| |] eqn:E; simpl; try assumption.
  apply IH. eapply HP; eassumption.
Qed.

Lemma run_returned (n : nat) (slap : nat -> Z) (fuel : nat) (c : Config) (t w : nat) :
  snd (run n slap fuel c) = Returned t w ->
  step n slap (fst (run n slap fuel c)) = Return t w.
Proof.
  revert c. induction fuel as [|fuel IH]; intros c; simpl; [discriminate|].
  destruct (step n slap c) as [c'| |] eqn:E; simpl.
  - apply IH.
  - now intros [= <- <-].
  - discriminate.
Qed.

Lemma init_wf (shuffle : list Card -> list Card) (num_players : Z) :
  (0 < num_players)%Z -> wf (Z.to_nat num_players) (init shuffle num_players).
Proof.
  intros H. constructor; simpl; try discriminate; try lia; try congruence.
  apply deal_spec. assumption.
Qed.

Lemma simulate_run (shuffle : list Card -> list Card) (num_players : Z)
      (slap : nat -> Z) (fuel : nat) :
  (0 < num_players)%Z ->
  simulate shuffle num_players slap fuel =
  run (Z.to_nat num_players) slap fuel (init shuffle num_players).
Proof.
  intros H. unfold simulate.
  destruct (Z.to_nat num_players) eqn:E; [lia|reflexivity].
Qed.

(** The invariant of the loop, for every configuration a run passes. *)
Lemma simulate_inv (shuffle : list Card -> list Card) (num_players : Z)
      (slap : nat -> Z) (fuel : nat) :
  (0 < num_players)%Z ->
  Permutation (shuffle new_deck) new_deck ->
  let c := fst (simulate shuffle num_players slap fuel) in
  wf (Z.to_nat num_players) c /\ Permutation (all_cards (st c)) new_deck.
Proof.
  intros Hn Hs. rewrite simulate_run by assumption.
  apply (@run_inv (Z.to_nat num_players) slap
           (fun c => wf (Z.to_nat num_players) c /\
                     Permutation (all_cards (st c)) new_deck)).
  - intros c c' [W P] E. split.
    + eapply step_wf; try eassumption. lia.
    + rewrite (step_all_cards _ _ _ E). assumption.
  - split; [now apply init_wf|].
    unfold all_cards. simpl. rewrite app_nil_r.
    destruct (deal_spec shuffle new_deck Hn) as [_ P]. now rewrite P.
Qed.

(** C3.  In a game of at least one player whose shuffle permutes the
    deck, every configuration the loop passes (after each play, skip,
    slap transfer and challenge-resolution transfer, however many steps
    have been made) holds in its hands and pile exactly the cards of the
    fresh deck: the same 52 cards, each once. *)
Theorem C3_card_conservation
        (shuffle : list Card -> list Card) (num_players : Z)
        (slap : nat -> Z) (steps : nat) :
  (0 < num_players)%Z ->
  Permutation (shuffle new_deck) new_deck ->
  let s := st (fst (simulate shuffle num_players slap steps)) in
  Permutation (all_cards s) new_deck /\
  NoDup (all_cards s) /\
  length (all_cards s) = 52.
Proof.
  intros Hn Hs s.
  destruct (simulate_inv shuffle slap steps Hn Hs) as [_ P].
  fold s in P. split; [assumption|]. split.
  - eapply Permutation_NoDup; [symmetry; eassumption|apply new_deck_NoDup].
  - rewrite (Permutation_length P). apply new_deck_length.
Qed.

Lemma C3_card_conservation_witness :
  (0 < 2)%Z /\
  Permutation (rev new_deck) new_deck /\
  Permutation
    (all_cards (st (fst (simulate (@rev Card) 2 (fun _ => 0%Z) 100)))) new_deck.
Proof.
  split; [lia|]. split; [symmetry; apply Permutation_rev|].
  apply (@C3_card_conservation (@rev Card) 2 (fun _ => 0%Z) 100).
  - lia.
  - symmetry. apply Permutation_rev.
Defined.

(** ** The winner *)

Lemma nonempty_count_cons (h : Hand) (hs : list Hand) :
  nonempty_count (h :: hs) =
  match h with [] => nonempty_count hs | _ => S (nonempty_count hs) end.
Proof. destruct h; reflexivity. Qed.

Lemma all_empty (hs : list Hand) :
  nonempty_count hs = 0 ->
  (forall j h, nth_error hs j = Some h -> h = []) /\
  concat hs = [] /\
  (forall bi b i, Py.argmax_from bi b i (map (@length Card) hs) = bi).
Proof.
  induction hs as [|x t IH]; intros H.
  - repeat split; auto. intros [|j] h; discriminate.
  - rewrite nonempty_count_cons in H. destruct x; [|discriminate].
    destruct (IH H) as (A & B & C). repeat split.
    + intros [|j] h; simpl; [now intros [= <-]|apply A].
    + simpl. assumption.
    + intros bi b i. simpl. destruct (b <? 0) eqn:E; [|apply C].
      apply Nat.ltb_lt in E. lia.
Qed.

Lemma one_nonempty_from (hs : list Hand) :
  nonempty_count hs = 1 ->
  exists k h,
    nth_error hs k = Some h /\ h <> [] /\
    (forall j h', j <> k -> nth_error hs j = Some h' -> h' = []) /\
    concat hs = h /\
    (forall bi i, Py.argmax_from bi 0 i (map (@length Card) hs) = i + k).
Proof.
  induction hs as [|x t IH]; intros H; [discriminate|].
  rewrite nonempty_count_cons in H. destruct x as [|c x].
  - destruct (IH H) as (k & h & A & B & C & D & F).
    exists (S k), h. repeat split; auto.
    + intros [|j] h' Hj; simpl; [now intros [= <-]|].
      apply C. lia.
    + intros bi i. simpl. rewrite F. lia.
  - injection H as H. destruct (all_empty t H) as (A & B & C).
    exists 0, (c :: x). repeat split; auto.
    + discriminate.
    + intros [|j] h' Hj; [lia|]. simpl. apply A.
    + simpl. rewrite B. f_equal. apply app_nil_r.
    + intros bi i. simpl. rewrite C. lia.
Qed.

Lemma one_nonempty (hs : list Hand) :
  nonempty_count hs = 1 ->
  exists h,
    nth_error hs (Py.argmax (map (@length Card) hs)) = Some h /\ h <> [] /\
    (forall j h', j <> Py.argmax (map (@length Card) hs) ->
                  nth_error hs j = Some h' -> h' = []) /\
    concat hs = h.
Proof.
  intros H. destruct hs as [|x t]; [discriminate|].
  rewrite nonempty_count_cons in H. destruct x as [|c x].
  - destruct (one_nonempty_from t H) as (k & h & A & B & C & D & F).
    simpl. rewrite F. exists h. repeat split; auto.
    intros [|j] h' Hj; simpl; [now intros [= <-]|].
    apply C. lia.
  - injection H as H. destruct (all_empty t H) as (A & B & C).
    simpl. rewrite C. exists (c :: x). repeat split; auto.
    + discriminate.
    + intros [|j] h' Hj; [lia|]. simpl. apply A.
    + rewrite B. f_equal. apply app_nil_r.
Qed.

Lemma step_return (n : nat) (slap : nat -> Z) (c : Config) (t w : nat) :
  step n slap c = Return t w ->
  loc c = AtFor /\ t = turn c /\
  nonempty_count (hands (st c)) = 1 /\
  w = Py.argmax (map (@length Card) (hands (st c))).
Proof.
  intros H. step_cases H. repeat split; auto. now apply Nat.eqb_eq.
Qed.

(** C2 (as the code has it).  When [simulate_game] returns
    [(turn, winner)], exactly one hand is non-empty, [winner] is the
    index of that hand, and that hand together with the pile holds the
    52 cards of the deck; [turn] is the number of the iteration in which
    the check fired. *)
Theorem C2_winner_and_pile
        (shuffle : list Card -> list Card) (num_players : Z)
        (slap : nat -> Z) (fuel t w : nat) :
  Permutation (shuffle new_deck) new_deck ->
  simulate_game shuffle num_players slap fuel = Returned t w ->
  let c := fst (simulate shuffle num_players slap fuel) in
  exists h,
    nth_error (hands (st c)) w = Some h /\ h <> [] /\
    (forall j h', j <> w -> nth_error (hands (st c)) j = Some h' -> h' = []) /\
    Permutation (h ++ pile (st c)) new_deck /\
    length h + length (pile (st c)) = 52 /\
    t = turn c.
Proof.
  intros Hs R c.
  assert (Hn : (0 < num_players)%Z).
  { unfold simulate_game, simulate in R.
    destruct (Z.to_nat num_players) eqn:E; [discriminate R|lia]. }
  destruct (simulate_inv shuffle slap fuel Hn Hs) as [_ P]. fold c in P.
  unfold simulate_game in R. subst c.
  rewrite simulate_run in * by assumption.
  apply run_returned in R. apply step_return in R.
  destruct R as (_ & -> & C1 & ->).
  destruct (one_nonempty _ C1) as (h & A & B & C & D).
  exists h. repeat split; auto.
  - unfold all_cards in P. now rewrite D in P.
  - unfold all_cards in P. rewrite D in P.
    rewrite <- length_app, (Permutation_length P). apply new_deck_length.
Qed.

(** The identity shuffle and the arbiter that always names player 1. *)
Definition no_shuffle (deck : list Card) : list Card := deck.
Definition always (p : Z) : nat -> Z := fun _ => p.

Lemma C2_winner_and_pile_witness :
  exists h,
    nth_error (hands (st (fst (simulate no_shuffle 2 (always 1) 400)))) 1 = Some h /\
    h <> [] /\ length h + 1 = 52.
Proof.
  destruct (@C2_winner_and_pile no_shuffle 2 (always 1) 400 52 1)
    as (h & A & B & _ & _ & L & _).
  - apply Permutation_refl.
  - vm_compute. reflexivity.
  - exists h. split; [exact A|]. split; [exact B|].
    replace (length (pile (st (fst (simulate no_shuffle 2 (always 1) 400))))) with 1 in L
      by (vm_compute; reflexivity).
    exact L.
Defined.

(** C2, as stated, fails: with the deck dealt unshuffled to two players
    and every slap awarded to player 1, the game returns [(52, 1)] while
    player 1 holds 51 cards and the last card played lies on the pile. *)
Lemma C2_winner_holds_51 :
  simulate_game no_shuffle 2 (always 1) 400 = Returned 52 1 /\
  map (@length Card) (hands (st (fst (simulate no_shuffle 2 (always 1) 400)))) = [0; 51] /\
  length (pile (st (fst (simulate no_shuffle 2 (always 1) 400)))) = 1 /\
  ~ (exists h,
        nth_error (hands (st (fst (simulate no_shuffle 2 (always 1) 400)))) 1 = Some h /\
        length h = 52).
Proof.
  split; [vm_compute; reflexivity|].
  split; [vm_compute; reflexivity|].
  split; [vm_compute; reflexivity|].
  intros (h & A & L).
  assert (E : option_map (@length Card)
                (nth_error (hands (st (fst (simulate no_shuffle 2 (always 1) 400)))) 1)
              = Some 51) by (vm_compute; reflexivity).
  rewrite A in E. simpl in E. injection E as E. lia.
Qed.

(** ** One step at each program point *)

Section Steps.
Variable n : nat.
Variable slap : nat -> Z.
Variable t : nat.
Variable s : State.

Let i := hand_index n t.

Lemma step_for_return (hand : Hand) :
  nth_error (hands s) i = Some hand ->
  nonempty_count (hands s) = 1 ->
  step n slap (mkConfig AtFor t s) =
  Return t (Py.argmax (map (@length Card) (hands s))).
Proof.
  intros H C. unfold step. simpl. fold i. rewrite H, C. reflexivity.
Qed.

Lemma step_for_skip :
  nth_error (hands s) i = Some [] ->
  nonempty_count (hands s) <> 1 ->
  step n slap (mkConfig AtFor t s) = Next (mkConfig AtFor (S t) s).
Proof.
  intros H C. unfold step. simpl. fold i. rewrite H.
  apply Nat.eqb_neq in C. rewrite C. reflexivity.
Qed.

Lemma step_for_play (h : Hand) (c : Card) :
  nth_error (hands s) i = Some (h ++ [c]) ->
  nonempty_count (hands s) <> 1 ->
  challenger s = None ->
  step n slap (mkConfig AtFor t s) =
  Next (mkConfig AtFor (S t)
          (mkState (Py.set_nth i h (hands s)) (pile s ++ [c])
                   (match royal (face c) with Some v => v | None => chances s end)
                   (match royal (face c) with Some _ => Some i | None => None end)
                   (slap_calls s))).
Proof.
  intros H C Ch. unfold step. simpl. fold i. rewrite H.
  apply Nat.eqb_neq in C. rewrite C, pop_snoc, Ch.
  destruct (royal (face c)); reflexivity.
Qed.

Lemma step_for_challenged (h : Hand) (c : Card) (ch : nat) :
  nth_error (hands s) i = Some (h ++ [c]) ->
  nonempty_count (hands s) <> 1 ->
  challenger s = Some ch ->
  step n slap (mkConfig AtFor t s) = Next (mkConfig AtWhile t s).
Proof.
  intros H C Ch. unfold step. simpl. fold i. rewrite H.
  apply Nat.eqb_neq in C. rewrite C, pop_snoc, Ch. reflexivity.
Qed.

Lemma step_while_push (h : Hand) (c : Card) :
  nth_error (hands s) i = Some (h ++ [c]) ->
  (0 < chances s)%Z ->
  step n slap (mkConfig AtWhile t s) =
  Next (mkConfig (AfterPush c) t
          (mkState (Py.set_nth i h (hands s)) (pile s ++ [c])
                   (chances s - 1) (challenger s) (slap_calls s))).
Proof.
  intros H C. unfold step. simpl. fold i. rewrite H, pop_snoc.
  apply Z.ltb_lt in C. rewrite C. reflexivity.
Qed.

Lemma step_while_exit (hand : Hand) :
  nth_error (hands s) i = Some hand ->
  (chances s <= 0)%Z \/ hand = [] ->
  step n slap (mkConfig AtWhile t s) = Next (mkConfig AfterWhile t s).
Proof.
  intros H C. unfold step. simpl. fold i. rewrite H.
  destruct C as [C| ->].
  - apply Z.ltb_ge in C. rewrite C. reflexivity.
  - destruct (0 <? chances s)%Z; reflexivity.
Qed.

Lemma step_push_slap (hand : Hand) (c : Card) (j : nat) :
  nth_error (hands s) i = Some hand ->
  slappable (pile s) = true ->
  Py.index (length (hands s)) (slap (slap_calls s)) = Some j ->
  step n slap (mkConfig (AfterPush c) t s) =
  Next (mkConfig AfterWhile t
          (mkState (give_pile (hands s) j (pile s)) [] 0
                   (challenger s) (S (slap_calls s)))).
Proof.
  intros H S J. unfold step. simpl. fold i. rewrite H, S, J. reflexivity.
Qed.

Lemma step_push_slap_raise (hand : Hand) (c : Card) :
  nth_error (hands s) i = Some hand ->
  slappable (pile s) = true ->
  Py.index (length (hands s)) (slap (slap_calls s)) = None ->
  step n slap (mkConfig (AfterPush c) t s) = Raise IndexError.
Proof.
  intros H S J. unfold step. simpl. fold i. rewrite H, S, J. reflexivity.
Qed.

Lemma step_push_royal (hand : Hand) (c : Card) (v : Z) :
  nth_error (hands s) i = Some hand ->
  slappable (pile s) = false ->
  royal (face c) = Some v ->
  step n slap (mkConfig (AfterPush c) t s) =
  Next (mkConfig AfterWhile t
          (mkState (hands s) (pile s) v (Some i) (slap_calls s))).
Proof.
  intros H S R. unfold step. simpl. fold i. rewrite H, S, R. reflexivity.
Qed.

Lemma step_push_plain (hand : Hand) (c : Card) :
  nth_error (hands s) i = Some hand ->
  slappable (pile s) = false ->
  royal (face c) = None ->
  step n slap (mkConfig (AfterPush c) t s) = Next (mkConfig AtWhile t s).
Proof.
  intros H S R. unfold step. simpl. fold i. rewrite H, S, R. reflexivity.
Qed.

Lemma step_after_resolve (hand : Hand) (ch : nat) :
  nth_error (hands s) i = Some hand ->
  chances s = 0%Z ->
  challenger s = Some ch ->
  ch < length (hands s) ->
  step n slap (mkConfig AfterWhile t s) =
  Next (mkConfig AtFor (S t)
          (mkState (give_pile (hands s) ch (pile s)) [] 0 None (slap_calls s))).
Proof.
  intros H C Ch L. unfold step. simpl. fold i. rewrite H, C, Ch. simpl.
  destruct (nth_error (hands s) ch) eqn:E; [reflexivity|].
  apply nth_error_None in E. lia.
Qed.

Lemma step_after_keep (hand : Hand) :
  nth_error (hands s) i = Some hand ->
  chances s <> 0%Z ->
  step n slap (mkConfig AfterWhile t s) = Next (mkConfig AtFor (S t) s).
Proof.
  intros H C. unfold step. simpl. fold i. rewrite H.
  apply Z.eqb_neq in C. rewrite C. reflexivity.
Qed.

End Steps.

Ltac simp_st := cbn [hands pile chances challenger slap_calls loc turn st].

Lemma run_S (n : nat) (slap : nat -> Z) (fuel : nat) (c : Config) :
  run n slap (S fuel) c =
  match step n slap c with
  | Next c' => run n slap fuel c'
  | Return t w => (c, Returned t w)
  | Raise e => (c, Raised e)
  end.
Proof. reflexivity. Qed.

Lemma run_add (n : nat) (slap : nat -> Z) (k m : nat) (c c' : Config) :
  run n slap k c = (c', Running) ->
  run n slap (k + m) c = run n slap m c'.
Proof.
  revert c. induction k as [|k IH]; intros c; simpl.
  - now intros [= ->].
  - destruct (step n slap c); try discriminate. apply IH.
Qed.

Lemma nth_error_give_pile (hs : list Hand) (j : nat) (p : list Card) (old : Hand) :
  nth_error hs j = Some old ->
  give_pile hs j p = Py.set_nth j (p ++ old) hs /\
  nth_error (give_pile hs j p) j = Some (p ++ old).
Proof.
  intros H. unfold give_pile. rewrite H, extendleft_reversed. split; [reflexivity|].
  apply nth_error_set_nth_eq. apply nth_error_Some. congruence.
Qed.

Lemma hand_index_S (n t : nat) :
  1 <= t -> hand_index n (S t) = S (hand_index n t) mod n.
Proof.
  intros H. unfold hand_index. destruct n as [|m].
  - simpl. lia.
  - replace (S t - 1) with (S (t - 1)) by lia.
    rewrite <- (Nat.add_1_r (t - 1)), <- (Nat.add_1_r ((t - 1) mod S m)).
    now rewrite Nat.Div0.add_mod_idemp_l.
Qed.

(** ** Challenges *)

(** C4.  In a challenge, when the chance card just pushed makes the pile
    slappable, the slap is taken whatever the card is and however many
    chances were left: the whole pile (the pushed card included) goes to
    the player the arbiter names, the pile is emptied, [chances] is 0,
    the challenger is forgotten and the loop is at the next player's
    turn.  The test of [slappable] is the first thing done after the
    push. *)
Theorem C4_slap_interrupts_challenge
        (n : nat) (slap : nat -> Z) (t : nat) (s : State)
        (h : Hand) (c : Card) (ch j : nat) :
  nth_error (hands s) (hand_index n t) = Some (h ++ [c]) ->
  (0 < chances s)%Z ->
  challenger s = Some ch -> ch < length (hands s) ->
  slappable (pile s ++ [c]) = true ->
  Py.index (length (hands s)) (slap (slap_calls s)) = Some j ->
  let hs := Py.set_nth (hand_index n t) h (hands s) in
  step n slap (mkConfig AtWhile t s) =
    Next (mkConfig (AfterPush c) t
            (mkState hs (pile s ++ [c]) (chances s - 1) (Some ch) (slap_calls s))) /\
  run n slap 3 (mkConfig AtWhile t s) =
    (mkConfig AtFor (S t)
       (mkState (give_pile hs j (pile s ++ [c])) [] 0 None (S (slap_calls s))),
     Running) /\
  exists old,
    nth_error hs j = Some old /\
    nth_error (give_pile hs j (pile s ++ [c])) j = Some ((pile s ++ [c]) ++ old).
Proof.
  intros H C Ch L Sl J hs.
  assert (Hi : hand_index n t < length (hands s)).
  { apply nth_error_Some. congruence. }
  assert (Hh : nth_error hs (hand_index n t) = Some h).
  { apply nth_error_set_nth_eq. assumption. }
  assert (Hl : length hs = length (hands s)) by apply set_nth_length.
  assert (S1 : step n slap (mkConfig AtWhile t s) =
               Next (mkConfig (AfterPush c) t
                       (mkState hs (pile s ++ [c]) (chances s - 1) (Some ch)
                                (slap_calls s)))).
  { rewrite (@step_while_push n slap t s h c H C), Ch. reflexivity. }
  split; [exact S1|]. split.
  - assert (J' : Py.index (length hs) (slap (slap_calls s)) = Some j)
      by now rewrite Hl.
    rewrite run_S, S1, run_S.
    rewrite (@step_push_slap n slap t
               (mkState hs (pile s ++ [c]) (chances s - 1) (Some ch) (slap_calls s))
               h c j Hh Sl J').
    simp_st. rewrite run_S.
    destruct (nth_error (give_pile hs j (pile s ++ [c])) (hand_index n t))
      as [hand|] eqn:E.
    + assert (L' : ch < length (give_pile hs j (pile s ++ [c])))
        by (rewrite give_pile_length; lia).
      rewrite (@step_after_resolve n slap t
                 (mkState (give_pile hs j (pile s ++ [c])) [] 0 (Some ch)
                          (Datatypes.S (slap_calls s)))
                 hand ch E eq_refl eq_refl L').
      simp_st. rewrite give_pile_nil. reflexivity.
    + apply nth_error_None in E. rewrite give_pile_length in E. lia.
  - apply index_lt in J. rewrite <- Hl in J.
    destruct (nth_error hs j) as [old|] eqn:E.
    + exists old. split; [reflexivity|]. now apply nth_error_give_pile.
    + apply nth_error_None in E. lia.
Qed.

Lemma C4_slap_interrupts_challenge_witness :
  let s := mkState [[mkCard (Num 2) Clubs]; [mkCard King Hearts; mkCard Queen Spades]]
                   [mkCard Ace Clubs; mkCard Queen Hearts] 4 (Some 0) 0 in
  run 2 (always 0) 3 (mkConfig AtWhile 2 s) =
    (mkConfig AtFor 3
       (mkState [[mkCard Ace Clubs; mkCard Queen Hearts; mkCard Queen Spades;
                  mkCard (Num 2) Clubs];
                 [mkCard King Hearts]] [] 0 None 1),
     Running).
Proof.
  intros s.
  refine (proj1 (proj2
    (@C4_slap_interrupts_challenge 2 (always 0) 2 s
       [mkCard King Hearts] (mkCard Queen Spades) 0 0 _ _ _ _ _ _)));
    try reflexivity.
  simpl. lia.
Defined.

(** C5.  In a challenge, when the chance card just pushed is a royal and
    the pile is not slappable, the player who pushed it becomes the
    challenger, [chances] becomes that royal's value in the table (Jack 1,
    Queen 2, King 3, Ace 4), the challenge stays open, the loop goes to
    the next player's turn without another card from this player, and no
    hand receives anything: only the pushed card has left its hand. *)
Theorem C5_royal_interrupt
        (n : nat) (slap : nat -> Z) (t : nat) (s : State)
        (h : Hand) (c : Card) (v : Z) :
  nth_error (hands s) (hand_index n t) = Some (h ++ [c]) ->
  (0 < chances s)%Z ->
  slappable (pile s ++ [c]) = false ->
  royal (face c) = Some v ->
  run n slap 3 (mkConfig AtWhile t s) =
    (mkConfig AtFor (S t)
       (mkState (Py.set_nth (hand_index n t) h (hands s)) (pile s ++ [c])
                v (Some (hand_index n t)) (slap_calls s)),
     Running) /\
  (1 <= v <= 4)%Z /\
  (royal Jack = Some 1 /\ royal Queen = Some 2 /\
   royal King = Some 3 /\ royal Ace = Some 4)%Z.
Proof.
  intros H C Sl R.
  assert (Hi : hand_index n t < length (hands s)).
  { apply nth_error_Some. congruence. }
  set (hs := Py.set_nth (hand_index n t) h (hands s)).
  assert (Hh : nth_error hs (hand_index n t) = Some h).
  { apply nth_error_set_nth_eq. assumption. }
  pose proof (royal_range _ R) as V.
  split; [|split; [exact V|repeat split]].
  rewrite run_S, (@step_while_push n slap t s h c H C), run_S.
  fold hs.
  rewrite (@step_push_royal n slap t
             (mkState hs (pile s ++ [c]) (chances s - 1) (challenger s) (slap_calls s))
             h c v Hh Sl R).
  simp_st. rewrite run_S.
  rewrite (@step_after_keep n slap t
             (mkState hs (pile s ++ [c]) v (Some (hand_index n t)) (slap_calls s))
             h Hh).
  - reflexivity.
  - simpl. lia.
Qed.

Lemma C5_royal_interrupt_witness :
  let s := mkState [[mkCard (Num 2) Clubs]; [mkCard King Hearts; mkCard Queen Spades]]
                   [mkCard Jack Clubs] 1 (Some 0) 0 in
  run 2 (always 0) 3 (mkConfig AtWhile 2 s) =
    (mkConfig AtFor 3
       (mkState [[mkCard (Num 2) Clubs]; [mkCard King Hearts]]
                [mkCard Jack Clubs; mkCard Queen Spades] 2 (Some 1) 0),
     Running).
Proof.
  intros s.
  refine (proj1
    (@C5_royal_interrupt 2 (always 0) 2 s
       [mkCard King Hearts] (mkCard Queen Spades) 2%Z _ _ _ _));
    reflexivity.
Defined.

(** *** Resolution by exhaustion *)

Lemma resolve_by_exhaustion
      (n : nat) (slap : nat -> Z) (t : nat) (s : State)
      (h : Hand) (c : Card) (ch : nat) :
  nth_error (hands s) (hand_index n t) = Some (h ++ [c]) ->
  chances s = 1%Z ->
  challenger s = Some ch -> ch < length (hands s) ->
  slappable (pile s ++ [c]) = false ->
  royal (face c) = None ->
  let hs := Py.set_nth (hand_index n t) h (hands s) in
  run n slap 4 (mkConfig AtWhile t s) =
    (mkConfig AtFor (S t)
       (mkState (give_pile hs ch (pile s ++ [c])) [] 0 None (slap_calls s)),
     Running) /\
  exists old,
    nth_error hs ch = Some old /\
    nth_error (give_pile hs ch (pile s ++ [c])) ch = Some ((pile s ++ [c]) ++ old).
Proof.
  intros H C Ch L Sl R hs.
  assert (Hi : hand_index n t < length (hands s)).
  { apply nth_error_Some. congruence. }
  assert (Hh : nth_error hs (hand_index n t) = Some h).
  { apply nth_error_set_nth_eq. assumption. }
  assert (Hl : length hs = length (hands s)) by apply set_nth_length.
  assert (C' : (0 < chances s)%Z) by lia.
  split.
  - rewrite run_S, (@step_while_push n slap t s h c H C'), run_S.
    fold hs. rewrite C, Ch. change (1 - 1)%Z with 0%Z.
    rewrite (@step_push_plain n slap t
               (mkState hs (pile s ++ [c]) 0 (Some ch) (slap_calls s))
               h c Hh Sl R).
    rewrite run_S.
    rewrite (@step_while_exit n slap t
               (mkState hs (pile s ++ [c]) 0 (Some ch) (slap_calls s))
               h Hh) by (left; simpl; lia).
    rewrite run_S.
    rewrite (@step_after_resolve n slap t
               (mkState hs (pile s ++ [c]) 0 (Some ch) (slap_calls s))
               h ch Hh eq_refl eq_refl) by (simpl; lia).
    reflexivity.
  - rewrite <- Hl in L.
    destruct (nth_error hs ch) as [old|] eqn:E.
    + exists old. split; [reflexivity|]. now apply nth_error_give_pile.
    + apply nth_error_None in E. lia.
Qed.

Lemma hand_index_next_neq (n t : nat) :
  2 <= n -> 1 <= t -> hand_index n (S t) <> hand_index n t.
Proof.
  intros Hn Ht. rewrite hand_index_S by assumption.
  assert (B : hand_index n t < n) by (apply hand_index_lt; lia).
  destruct (Nat.eq_dec (S (hand_index n t)) n) as [E|E].
  - rewrite E, Nat.Div0.mod_same. lia.
  - rewrite Nat.mod_small by lia. lia.
Qed.

Lemma jack_then_plain
      (n : nat) (slap : nat -> Z) (t : nat) (s : State)
      (h0 h1 : Hand) (jack x : Card) :
  2 <= n -> 1 <= t -> length (hands s) = n ->
  challenger s = None -> pile s = [] ->
  nth_error (hands s) (hand_index n t) = Some (h0 ++ [jack]) ->
  nth_error (hands s) (hand_index n (S t)) = Some (h1 ++ [x]) ->
  face jack = Jack -> royal (face x) = None ->
  nonempty_count (hands s) <> 1 ->
  nonempty_count (Py.set_nth (hand_index n t) h0 (hands s)) <> 1 ->
  run n slap 6 (mkConfig AtFor t s) =
    (mkConfig AtFor (S (S t))
       (mkState (Py.set_nth (hand_index n t) ([jack; x] ++ h0)
                   (Py.set_nth (hand_index n (S t)) h1
                      (Py.set_nth (hand_index n t) h0 (hands s))))
                [] 0 None (slap_calls s)),
     Running).
Proof.
  intros Hn Ht Hl Ch P H0 H1 J R N0 N1.
  pose proof (hand_index_next_neq Hn Ht) as D.
  assert (B0 : hand_index n t < length (hands s)).
  { apply nth_error_Some. congruence. }
  set (hs0 := Py.set_nth (hand_index n t) h0 (hands s)) in *.
  assert (H1' : nth_error hs0 (hand_index n (S t)) = Some (h1 ++ [x])).
  { unfold hs0. rewrite nth_error_set_nth_neq by congruence. assumption. }
  rewrite run_S, (@step_for_play n slap t s h0 jack H0 N0 Ch).
  rewrite J, P. cbn [royal app]. fold hs0.
  set (s1 := mkState hs0 [jack] 1 (Some (hand_index n t)) (slap_calls s)).
  rewrite run_S,
    (@step_for_challenged n slap (S t) s1 h1 x (hand_index n t) H1' N1 eq_refl).
  assert (Sl : slappable (pile s1 ++ [x]) = false).
  { simpl. rewrite slappable_rev. simpl. rewrite J.
    destruct (face x); try reflexivity; discriminate R. }
  assert (L : hand_index n t < length (hands s1)).
  { simpl. unfold hs0. rewrite set_nth_length. assumption. }
  destruct (@resolve_by_exhaustion n slap (S t) s1 h1 x (hand_index n t)
              H1' eq_refl eq_refl L Sl R) as [Run _].
  rewrite Run. f_equal. f_equal. f_equal.
  unfold give_pile. unfold s1. simp_st.
  assert (E : nth_error (Py.set_nth (hand_index n (S t)) h1 hs0) (hand_index n t)
              = Some h0).
  { rewrite nth_error_set_nth_neq by assumption.
    unfold hs0. now apply nth_error_set_nth_eq. }
  rewrite E, extendleft_reversed. reflexivity.
Qed.

(** C6.  When the last chance of a challenge is used up by a card that is
    no royal and makes no slap, the whole pile goes to the bottom of the
    challenger's hand, the pile is emptied, the challenge is forgotten
    ([chances] 0, no challenger) and the loop is at the turn of the
    player after the one who just played.  In particular, from an empty
    pile, a Jack followed by one pip card of the next player that makes
    no slap sends both cards to the player of the Jack. *)
Theorem C6_challenge_resolution :
  (forall (n : nat) (slap : nat -> Z) (t : nat) (s : State)
          (h : Hand) (c : Card) (ch : nat),
      nth_error (hands s) (hand_index n t) = Some (h ++ [c]) ->
      chances s = 1%Z ->
      challenger s = Some ch -> ch < length (hands s) ->
      slappable (pile s ++ [c]) = false ->
      royal (face c) = None ->
      1 <= t ->
      let hs := Py.set_nth (hand_index n t) h (hands s) in
      run n slap 4 (mkConfig AtWhile t s) =
        (mkConfig AtFor (S t)
           (mkState (give_pile hs ch (pile s ++ [c])) [] 0 None (slap_calls s)),
         Running) /\
      (exists old,
          nth_error hs ch = Some old /\
          nth_error (give_pile hs ch (pile s ++ [c])) ch =
          Some ((pile s ++ [c]) ++ old)) /\
      hand_index n (S t) = S (hand_index n t) mod n) /\
  (forall (n : nat) (slap : nat -> Z) (t : nat) (s : State)
          (h0 h1 : Hand) (jack x : Card),
      2 <= n -> 1 <= t -> length (hands s) = n ->
      challenger s = None -> pile s = [] ->
      nth_error (hands s) (hand_index n t) = Some (h0 ++ [jack]) ->
      nth_error (hands s) (hand_index n (S t)) = Some (h1 ++ [x]) ->
      face jack = Jack -> royal (face x) = None ->
      nonempty_count (hands s) <> 1 ->
      nonempty_count (Py.set_nth (hand_index n t) h0 (hands s)) <> 1 ->
      run n slap 6 (mkConfig AtFor t s) =
        (mkConfig AtFor (S (S t))
           (mkState (Py.set_nth (hand_index n t) ([jack; x] ++ h0)
                       (Py.set_nth (hand_index n (S t)) h1
                          (Py.set_nth (hand_index n t) h0 (hands s))))
                    [] 0 None (slap_calls s)),
         Running)).
Proof.
  split.
  - intros n slap t s h c ch H C Ch L Sl R Ht hs.
    destruct (@resolve_by_exhaustion n slap t s h c ch H C Ch L Sl R) as [A B].
    split; [exact A|]. split; [exact B|]. now apply hand_index_S.
  - intros. now apply jack_then_plain.
Qed.

Lemma C6_challenge_resolution_witness :
  let s := mkState [[mkCard (Num 2) Clubs; mkCard Jack Spades];
                    [mkCard King Hearts; mkCard (Num 5) Diamonds]]
                   [] 0 None 0 in
  run 2 (always 0) 6 (mkConfig AtFor 1 s) =
    (mkConfig AtFor 3
       (mkState [[mkCard Jack Spades; mkCard (Num 5) Diamonds; mkCard (Num 2) Clubs];
                 [mkCard King Hearts]] [] 0 None 0),
     Running).
Proof.
  intros s.
  refine (proj2 C6_challenge_resolution 2 (always 0) 1 s
            [mkCard (Num 2) Clubs] [mkCard King Hearts]
            (mkCard Jack Spades) (mkCard (Num 5) Diamonds)
            _ _ _ _ _ _ _ _ _ _ _);
    try reflexivity; try (simpl; lia); try (vm_compute; discriminate).
Defined.

(** C7.  A pile handed over goes under the receiving hand, its cards in
    the order they were played: [extendleft(reversed(pile))] leaves
    [pile ++ hand], so the card played last lies next to the old bottom of
    the hand and the card played first is the new bottom.  Read from the
    top down, the new hand is the old hand followed by the pile from its
    top down.  Both transfers of the loop, the slap and the resolution of
    a challenge, are that operation on the whole pile. *)
Theorem C7_transfer_orientation :
  (forall d p : list Card, Py.extendleft d (Py.reversed p) = p ++ d) /\
  (forall d p : list Card,
      rev (Py.extendleft d (Py.reversed p)) = rev d ++ rev p) /\
  (forall (n : nat) (slap : nat -> Z) (t : nat) (card : Card) (s : State) (c' : Config),
      slappable (pile s) = true ->
      step n slap (mkConfig (AfterPush card) t s) = Next c' ->
      exists j old,
        nth_error (hands s) j = Some old /\
        hands (st c') = Py.set_nth j (pile s ++ old) (hands s) /\
        pile (st c') = []) /\
  (forall (n : nat) (slap : nat -> Z) (t : nat) (s : State) (c' : Config),
      chances s = 0%Z ->
      step n slap (mkConfig AfterWhile t s) = Next c' ->
      exists j old,
        challenger s = Some j /\
        nth_error (hands s) j = Some old /\
        hands (st c') = Py.set_nth j (pile s ++ old) (hands s) /\
        pile (st c') = []).
Proof.
  split; [|split; [|split]].
  - intros d p. apply extendleft_reversed.
  - intros d p. now rewrite extendleft_reversed, rev_app_distr.
  - intros n slap t card s c' Sl H.
    unfold step in H. simpl in H. rewrite Sl in H.
    destruct (nth_error (hands s) (hand_index n t)); [|discriminate].
    destruct (Py.index (length (hands s)) (slap (slap_calls s))) as [j|] eqn:J;
      [|discriminate].
    injection H as <-. simpl.
    apply index_lt in J.
    destruct (nth_error (hands s) j) as [old|] eqn:E.
    + exists j, old. split; [assumption|]. split; [|reflexivity].
      now apply nth_error_give_pile.
    + apply nth_error_None in E. lia.
  - intros n slap t s c' C H.
    unfold step in H. simpl in H. rewrite C in H. simpl in H.
    destruct (nth_error (hands s) (hand_index n t)); [|discriminate].
    destruct (challenger s) as [j|]; [|discriminate].
    destruct (nth_error (hands s) j) as [old|] eqn:E; [|discriminate].
    injection H as <-. simpl.
    exists j, old. repeat split; auto. now apply nth_error_give_pile.
Qed.

Lemma C7_transfer_orientation_witness :
  let s := mkState [[mkCard (Num 2) Clubs]; [mkCard King Hearts]]
                   [mkCard Jack Spades; mkCard (Num 5) Diamonds] 0 (Some 0) 0 in
  exists c',
    step 2 (always 0) (mkConfig AfterWhile 2 s) = Next c' /\
    hands (st c') =
    [[mkCard Jack Spades; mkCard (Num 5) Diamonds; mkCard (Num 2) Clubs];
     [mkCard King Hearts]].
Proof.
  intros s. eexists. split; [reflexivity|].
  destruct (proj2 (proj2 (proj2 C7_transfer_orientation)) 2 (always 0) 2 s _
              eq_refl eq_refl) as (j & old & Cj & Ej & Hh & _).
  injection Cj as <-. injection Ej as <-. exact Hh.
Defined.

(** ** Configurations nobody checks *)

Lemma index_nonneg (n : nat) (a : Z) :
  (0 <= a < Z.of_nat n)%Z -> Py.index n a = Some (Z.to_nat a).
Proof.
  intros H. unfold Py.index.
  replace ((0 <=? a) && (a <? Z.of_nat n))%Z with true; [reflexivity|].
  symmetry. apply andb_true_iff. split; [apply Z.leb_le|apply Z.ltb_lt]; lia.
Qed.

Lemma index_negative (n : nat) (a : Z) :
  (- Z.of_nat n <= a < 0)%Z -> Py.index n a = Some (Z.to_nat (Z.of_nat n + a)).
Proof.
  intros H. unfold Py.index.
  replace (0 <=? a)%Z with false by (symmetry; apply Z.leb_gt; lia).
  replace ((a <? 0) && (- Z.of_nat n <=? a))%Z with true; [reflexivity|].
  symmetry. apply andb_true_iff. split; [apply Z.ltb_lt|apply Z.leb_le]; lia.
Qed.

Lemma index_out_of_range (n : nat) (a : Z) :
  (Z.of_nat n <= a \/ a < - Z.of_nat n)%Z -> Py.index n a = None.
Proof.
  intros H. unfold Py.index.
  replace ((0 <=? a) && (a <? Z.of_nat n))%Z with false.
  - replace ((a <? 0) && (- Z.of_nat n <=? a))%Z with false; [reflexivity|].
    symmetry. apply andb_false_iff.
    destruct H; [left; apply Z.ltb_ge|right; apply Z.leb_gt]; lia.
  - symmetry. apply andb_false_iff.
    destruct H; [right; apply Z.ltb_ge|left; apply Z.leb_gt]; lia.
Qed.

(** C9 (as the code has it).  Nothing validates the configuration.  With
    [num_players <= 0], [deal] returns an empty list of hands and
    [simulate_game] returns [None]; no error is raised.  When the arbiter
    is asked, its answer is used as a Python index into the hands: an
    answer at or above the number of hands, or below its negation, raises
    [IndexError] and no hand receives the pile; an answer from
    [-len(hands)] to [-1] counts from the end, and the pile goes to the
    hand numbered [len(hands) + answer]; an answer in range names the
    receiving hand. *)
Theorem C9_no_validation :
  (forall (shuffle : list Card -> list Card) (deck : list Card) (num_players : Z),
      (num_players <= 0)%Z -> deal shuffle deck num_players = []) /\
  (forall (shuffle : list Card -> list Card) (num_players : Z)
          (slap : nat -> Z) (fuel : nat),
      (num_players <= 0)%Z ->
      simulate_game shuffle num_players slap fuel = ReturnedNone) /\
  (forall (n : nat) (slap : nat -> Z) (t : nat) (card : Card) (s : State) (hand : Hand),
      nth_error (hands s) (hand_index n t) = Some hand ->
      slappable (pile s) = true ->
      let a := slap (slap_calls s) in
      let len := Z.of_nat (length (hands s)) in
      let given j :=
        Next (mkConfig AfterWhile t
                (mkState (give_pile (hands s) j (pile s)) [] 0
                         (challenger s) (S (slap_calls s)))) in
      ((len <= a \/ a < - len)%Z ->
       step n slap (mkConfig (AfterPush card) t s) = Raise IndexError) /\
      ((- len <= a < 0)%Z ->
       step n slap (mkConfig (AfterPush card) t s) = given (Z.to_nat (len + a))) /\
      ((0 <= a < len)%Z ->
       step n slap (mkConfig (AfterPush card) t s) = given (Z.to_nat a))).
Proof.
  split; [|split].
  - intros. now apply deal_nonpositive.
  - intros shuffle num_players slap fuel H.
    unfold simulate_game, simulate.
    replace (Z.to_nat num_players) with 0 by lia. reflexivity.
  - intros n slap t card s hand H Sl a len given. repeat split; intros R.
    + apply (@step_push_slap_raise n slap t s hand card H Sl).
      now apply index_out_of_range.
    + apply (@step_push_slap n slap t s hand card _ H Sl).
      now apply index_negative.
    + apply (@step_push_slap n slap t s hand card _ H Sl).
      now apply index_nonneg.
Qed.

Lemma C9_no_validation_witness :
  simulate_game no_shuffle (-3) (always 0) 10 = ReturnedNone /\
  step 2 (always 5) (mkConfig (AfterPush (mkCard (Num 2) Hearts)) 2
                       (mkState [[mkCard Ace Clubs]; [mkCard King Clubs]]
                                [mkCard (Num 2) Spades; mkCard (Num 2) Hearts]
                                1 (Some 0) 0))
  = Raise IndexError.
Proof.
  split.
  - apply (proj1 (proj2 C9_no_validation)). lia.
  - refine (proj1 (proj2 (proj2 C9_no_validation) 2 (always 5) 2
                     (mkCard (Num 2) Hearts)
                     (mkState [[mkCard Ace Clubs]; [mkCard King Clubs]]
                              [mkCard (Num 2) Spades; mkCard (Num 2) Hearts]
                              1 (Some 0) 0)
                     [mkCard King Clubs] _ _) _); try reflexivity.
    left. simpl. unfold always. lia.
Defined.

(** C9, as stated, fails: zero players raise nothing ([deal] returns no
    hands and the game returns [None]), and an arbiter answering [-1] in
    a two-player game is not refused: the pile is put under the last
    player's hand. *)
Lemma C9_nothing_is_raised :
  deal no_shuffle new_deck 0 = [] /\
  simulate_game no_shuffle 0 (always 0) 10 = ReturnedNone /\
  step 2 (always (-1)) (mkConfig (AfterPush (mkCard (Num 2) Hearts)) 2
                          (mkState [[mkCard Ace Clubs]; [mkCard King Clubs]]
                                   [mkCard (Num 2) Spades; mkCard (Num 2) Hearts]
                                   1 (Some 0) 0))
  = Next (mkConfig AfterWhile 2
            (mkState [[mkCard Ace Clubs];
                      [mkCard (Num 2) Spades; mkCard (Num 2) Hearts; mkCard King Clubs]]
                     [] 0 (Some 0) 1)) /\
  simulate_game no_shuffle 2 (always (-1)) 400 = Returned 52 1.
Proof.
  repeat split; vm_compute; reflexivity.
Qed.

(** ** The arbiter is asked in challenges only *)

Lemma simulate_wf (shuffle : list Card -> list Card) (num_players : Z)
      (slap : nat -> Z) (fuel : nat) :
  (0 < num_players)%Z ->
  wf (Z.to_nat num_players) (fst (simulate shuffle num_players slap fuel)).
Proof.
  intros Hn. rewrite simulate_run by assumption.
  apply (@run_inv (Z.to_nat num_players) slap (wf (Z.to_nat num_players))).
  - intros c c' W E. eapply step_wf; try eassumption. lia.
  - now apply init_wf.
Qed.

(** C10.  A step of normal play (no challenger) never asks the arbiter:
    the count of its calls is unchanged, the card played stays on the
    pile whatever the pile now looks like, and the loop is at the next
    turn.  In a game, the only step that asks the arbiter is the one
    right after a chance card has been pushed in a challenge, on a
    slappable pile.  An unshuffled deck shows a slappable pile left alone:
    after two plays the pile holds two 2s, and the third play goes on. *)
Theorem C10_no_slap_in_normal_play :
  (forall (n : nat) (slap : nat -> Z) (t : nat) (s : State) (c' : Config),
      challenger s = None ->
      step n slap (mkConfig AtFor t s) = Next c' ->
      slap_calls (st c') = slap_calls s /\
      loc c' = AtFor /\ turn c' = S t /\
      (st c' = s \/
       exists h card,
         nth_error (hands s) (hand_index n t) = Some (h ++ [card]) /\
         pile (st c') = pile s ++ [card] /\
         hands (st c') = Py.set_nth (hand_index n t) h (hands s))) /\
  (forall (shuffle : list Card -> list Card) (num_players : Z)
          (slap : nat -> Z) (steps : nat) (c' : Config),
      (0 < num_players)%Z ->
      let c := fst (simulate shuffle num_players slap steps) in
      step (Z.to_nat num_players) slap c = Next c' ->
      slap_calls (st c') <> slap_calls (st c) ->
      exists card,
        loc c = AfterPush card /\
        challenger (st c) <> None /\
        slappable (pile (st c)) = true /\
        slap_calls (st c') = S (slap_calls (st c))) /\
  (let c2 := fst (simulate no_shuffle 2 (always 0) 2) in
   let c3 := fst (simulate no_shuffle 2 (always 0) 3) in
   loc c2 = AtFor /\ challenger (st c2) = None /\
   pile (st c2) = [mkCard (Num 2) Diamonds; mkCard (Num 2) Clubs] /\
   slappable (pile (st c2)) = true /\
   pile (st c3) = pile (st c2) ++ [mkCard (Num 2) Spades] /\
   slap_calls (st c3) = 0).
Proof.
  split; [|split].
  - intros n slap t s c' Ch H.
    unfold step in H. cbn [loc turn st] in H. rewrite Ch in H.
    destruct (nth_error (hands s) (hand_index n t)) as [hand|] eqn:E;
      [|discriminate].
    destruct (nonempty_count (hands s) =? 1); [discriminate|].
    destruct (Py.pop hand) as [[card rest]|] eqn:P.
    + apply pop_some in P. subst hand.
      destruct (royal (face card)); injection H as <-; simpl;
        repeat split; right; exists rest, card; repeat split; auto.
    + injection H as <-. simpl. repeat split. now left.
  - intros shuffle num_players slap steps c' Hn c H D.
    pose proof (simulate_wf shuffle slap steps Hn) as W. fold c in W.
    destruct W as [_ _ W _]. clearbody c.
    destruct (loc c) as [| |card|] eqn:L;
      try (exfalso; unfold step in H; rewrite L in H;
           repeat match type of H with
                  | context [match ?x with _ => _ end] => destruct x
                  | context [if ?x then _ else _] => destruct x
                  end;
           try discriminate H; injection H as <-; simpl in D; congruence).
    exists card. split; [reflexivity|]. split; [apply W; discriminate|].
    unfold step in H. rewrite L in H.
    destruct (nth_error (hands (st c)) (hand_index (Z.to_nat num_players) (turn c)));
      [|discriminate].
    destruct (slappable (pile (st c))).
    + destruct (Py.index (length (hands (st c))) (slap (slap_calls (st c))));
        [|discriminate].
      injection H as <-. split; reflexivity.
    + exfalso. destruct (royal (face card)); injection H as <-; simpl in D;
        congruence.
  - vm_compute. repeat split.
Qed.

Lemma C10_no_slap_in_normal_play_witness :
  let s := mkState [[mkCard (Num 3) Clubs; mkCard (Num 2) Hearts]; [mkCard King Clubs]]
                   [mkCard (Num 2) Spades] 0 None 0 in
  exists c',
    step 2 (always 0) (mkConfig AtFor 1 s) = Next c' /\
    slappable (pile (st c')) = true /\
    slap_calls (st c') = 0 /\ loc c' = AtFor.
Proof.
  intros s. eexists. split; [reflexivity|]. split; [reflexivity|].
  destruct (proj1 C10_no_slap_in_normal_play 2 (always 0) 1 s _ eq_refl eq_refl)
    as (A & B & _).
  split; [exact A|exact B].
Defined.

(** ** Runs that come back to where they were *)

(** [shift a b c]: the configuration [c], [a] iterations and [b] calls of
    the arbiter later. *)
Definition shift (a b : nat) (c : Config) : Config :=
  mkConfig (loc c) (turn c + a)
           (mkState (hands (st c)) (pile (st c)) (chances (st c))
                    (challenger (st c)) (slap_calls (st c) + b)).

Definition shift_outcome (a b : nat) (o : Outcome) : Outcome :=
  match o with
  | Next c => Next (shift a b c)
  | Return t w => Return (t + a) w
  | Raise e => Raise e
  end.

Definition shift_result (a : nat) (r : Result) : Result :=
  match r with
  | Returned t w => Returned (t + a) w
  | _ => r
  end.

Section Shift.
Variable n : nat.
Variable slap : nat -> Z.
Variables a b from : nat.
Hypothesis a_rounds : exists k, a = k * n.
Hypothesis slap_periodic : forall k, from <= k -> slap (k + b) = slap k.

Lemma hand_index_shift (t : nat) : 1 <= t -> hand_index n (t + a) = hand_index n t.
Proof.
  intros H. destruct a_rounds as [k ->]. unfold hand_index.
  replace (t + k * n - 1) with (t - 1 + k * n) by lia.
  destruct n as [|m]; [simpl; lia|].
  apply Nat.Div0.mod_add.
Qed.

Lemma step_shift (c : Config) :
  1 <= turn c -> from <= slap_calls (st c) ->
  step n slap (shift a b c) = shift_outcome a b (step n slap c).
Proof.
  intros Ht Hs. destruct c as [l t [hs p k ch sc]]. simpl in Ht, Hs.
  unfold step, shift. cbn [loc turn st hands pile chances challenger slap_calls].
  rewrite (hand_index_shift Ht), (slap_periodic Hs).
  destruct (nth_error hs (hand_index n t)) as [hand|]; [|reflexivity].
  destruct l as [| |card|].
  - destruct (nonempty_count hs =? 1); [reflexivity|].
    destruct (Py.pop hand) as [[card rest]|]; [|reflexivity].
    destruct ch; [reflexivity|].
    destruct (royal (face card)); reflexivity.
  - destruct (0 <? k)%Z; [|reflexivity].
    destruct (Py.pop hand) as [[card rest]|]; reflexivity.
  - destruct (slappable p).
    + destruct (Py.index (length hs) (slap sc)); reflexivity.
    + destruct (royal (face card)); reflexivity.
  - destruct (k =? 0)%Z; [|reflexivity].
    destruct ch as [j|]; [|reflexivity].
    destruct (nth_error hs j); reflexivity.
Qed.

Lemma step_monotone (c c' : Config) :
  step n slap c = Next c' ->
  turn c <= turn c' /\ slap_calls (st c) <= slap_calls (st c').
Proof.
  intros H. step_cases H; simpl; lia.
Qed.

Lemma run_shift (fuel : nat) (c : Config) :
  1 <= turn c -> from <= slap_calls (st c) ->
  run n slap fuel (shift a b c) =
  (shift a b (fst (run n slap fuel c)), shift_result a (snd (run n slap fuel c))).
Proof.
  revert c. induction fuel as [|fuel IH]; intros c Ht Hs; [reflexivity|].
  rewrite !run_S, step_shift by assumption.
  destruct (step n slap c) as [c'| |] eqn:E; simpl; try reflexivity.
  destruct (step_monotone _ E). apply IH; lia.
Qed.

Lemma run_running_prefix (k m : nat) (c c' : Config) :
  run n slap (k + m) c = (c', Running) -> snd (run n slap k c) = Running.
Proof.
  revert c. induction k as [|k IH]; intros c; [reflexivity|].
  simpl. destruct (step n slap c); try discriminate. apply IH.
Qed.

(** A run that, some steps later, is in the same configuration a whole
    number of rounds later never returns. *)
Lemma loop_forever (period : nat) (c : Config) :
  0 < period -> 1 <= turn c -> from <= slap_calls (st c) ->
  run n slap period c = (shift a b c, Running) ->
  forall fuel, snd (run n slap fuel c) = Running.
Proof.
  intros Hp Ht Hs Loop fuel.
  induction fuel as [fuel IH] using lt_wf_ind.
  destruct (Nat.lt_ge_cases fuel period) as [Lt|Ge].
  - apply (@run_running_prefix fuel (period - fuel) c (shift a b c)).
    now replace (fuel + (period - fuel)) with period by lia.
  - replace fuel with (period + (fuel - period)) by lia.
    rewrite (@run_add n slap period (fuel - period) c _ Loop).
    rewrite run_shift by assumption. simpl.
    rewrite IH by lia. reflexivity.
Qed.

End Shift.

(** The loop has runs that never end: eight royals, two hands of four,
    and an arbiter that answers 1, 0, 1, 0, ...  Every turn of a Jack on a
    Jack (or a Queen on a Queen) is a slap, the pairs go under the hands
    in turn, and after 40 steps both hands are where they were.  (Such a
    configuration is no deal of the 52-card deck.) *)
Definition eight_royals : Config :=
  mkConfig AtFor 1
    (mkState [[mkCard Queen Clubs; mkCard Queen Diamonds;
               mkCard Jack Clubs; mkCard Jack Diamonds];
              [mkCard Queen Hearts; mkCard Queen Spades;
               mkCard Jack Hearts; mkCard Jack Spades]]
             [] 0 None 0).

Definition alternate : nat -> Z := fun k => if Nat.even k then 1%Z else 0%Z.

Lemma eight_royals_loop :
  forall fuel, snd (run 2 alternate fuel eight_royals) = Running.
Proof.
  assert (P : forall k, 0 <= k -> alternate (k + 8) = alternate k).
  { intros k _. unfold alternate.
    replace (k + 8) with (k + 2 * 4) by lia.
    rewrite Nat.even_add_mul_2. reflexivity. }
  assert (E : exists k, 16 = k * 2) by (exists 8; reflexivity).
  apply (@loop_forever 2 alternate 16 8 0 E P 40).
  - lia.
  - apply le_n.
  - apply le_n.
  - vm_compute. reflexivity.
Qed.

(** * Further properties of the code *)

(** ** The deck *)

(** [new_deck] is the standard deck: 52 cards, no card twice, a card for
    every face of [faces] with every suite and no other card, four cards
    of each face, sixteen royals. *)
Theorem new_deck_standard :
  length new_deck = 52 /\
  NoDup new_deck /\
  (forall c : Card, In c new_deck <-> In (face c) faces) /\
  (forall f : Face,
      In f faces ->
      length (filter (fun c => Face_eqb (face c) f) new_deck) = 4) /\
  length (filter (fun c => match royal (face c) with Some _ => true | None => false end)
                 new_deck) = 16.
Proof.
  split; [reflexivity|]. split; [apply new_deck_NoDup|]. split; [|split].
  - intros [f s]. unfold new_deck. rewrite in_flat_map. simpl face. split.
    + intros (f' & Hf & Hc). apply in_map_iff in Hc.
      destruct Hc as (s' & [= <- <-] & _). exact Hf.
    + intros Hf. exists f. split; [exact Hf|].
      apply in_map. destruct s; simpl; tauto.
  - intros f H. simpl in H.
    repeat (destruct H as [H|H]; [subst f; reflexivity|]).
    destruct H.
  - reflexivity.
Qed.

(** ** Dealing round-robin *)

Lemma nth_error_append_to (hs : list Hand) (i j : nat) (c : Card) :
  i < length hs ->
  nth_error (append_to hs i c) j =
  if Nat.eqb j i then option_map (fun h => h ++ [c]) (nth_error hs i)
  else nth_error hs j.
Proof.
  intros Hi. unfold append_to.
  destruct (nth_error hs i) as [h|] eqn:E.
  - destruct (Nat.eqb_spec j i) as [->|N].
    + simpl. now apply nth_error_set_nth_eq.
    + apply nth_error_set_nth_neq. congruence.
  - apply nth_error_None in E. lia.
Qed.

(** What [deal_loop] keeps: after the cards [dealt], hand [j] holds, in
    the order received, the cards numbered [j], [j + n], [j + 2n], ... *)
Definition dealt_so_far (n : nat) (dealt : list Card) (hs : list Hand) : Prop :=
  length hs = n /\
  forall j h, nth_error hs j = Some h ->
    length h = length dealt / n + (if j <? length dealt mod n then 1 else 0) /\
    forall k, k < length h -> nth_error h k = nth_error dealt (j + k * n).

Lemma succ_div_mod (n m : nat) :
  0 < n ->
  (S (m mod n) < n /\ S m / n = m / n /\ S m mod n = S (m mod n)) \/
  (S (m mod n) = n /\ S m / n = S (m / n) /\ S m mod n = 0).
Proof.
  intros Hn.
  pose proof (Nat.div_mod_eq m n) as D.
  pose proof (Nat.mod_upper_bound m n ltac:(lia)) as B.
  destruct (Nat.eq_dec (S (m mod n)) n) as [E|E].
  - right. split; [assumption|].
    assert (Q : S m = n * S (m / n) + 0) by nia.
    split.
    + symmetry. apply (Nat.div_unique (S m) n (S (m / n)) 0); lia.
    + symmetry. apply (Nat.mod_unique (S m) n (S (m / n)) 0); lia.
  - left. split; [lia|].
    assert (Q : S m = n * (m / n) + S (m mod n)) by nia.
    split.
    + symmetry. apply (Nat.div_unique (S m) n (m / n) (S (m mod n))); lia.
    + symmetry. apply (Nat.mod_unique (S m) n (m / n) (S (m mod n))); lia.
Qed.

Lemma dealt_one_more (n : nat) (dealt : list Card) (hs : list Hand) (c : Card) :
  0 < n -> dealt_so_far n dealt hs ->
  dealt_so_far n (dealt ++ [c]) (append_to hs (length dealt mod n) c).
Proof.
  intros Hn [L I].
  set (m := length dealt) in *. set (i := m mod n).
  assert (Bi : i < n) by (apply Nat.mod_upper_bound; lia).
  pose proof (Nat.div_mod_eq m n) as D. fold i in D.
  destruct (@append_to_spec hs i c ltac:(lia)) as [L' _].
  split; [lia|].
  intros j h H. rewrite nth_error_append_to in H by lia.
  rewrite length_app, Nat.add_1_r. fold m.
  destruct (Nat.eqb_spec j i) as [->|N].
  - destruct (nth_error hs i) as [h0|] eqn:E0; [|discriminate].
    injection H as <-. destruct (I _ _ E0) as [Len Get].
    fold i in Len. rewrite Nat.ltb_irrefl, Nat.add_0_r in Len.
    rewrite length_app, Nat.add_1_r, Len. split.
    + destruct (succ_div_mod m Hn) as [(A & -> & ->)|(A & -> & ->)]; fold i in A |- *.
      * destruct (Nat.ltb_spec i (S i)); lia.
      * simpl. lia.
    + intros k Hk.
      destruct (Nat.eq_dec k (m / n)) as [->|Nk].
      * rewrite nth_error_app2 by lia. rewrite Len, Nat.sub_diag. simpl.
        rewrite nth_error_app2 by (fold m; nia).
        fold m. replace (i + m / n * n - m) with 0 by nia. reflexivity.
      * rewrite nth_error_app1 by lia.
        rewrite nth_error_app1 by (fold m; nia).
        apply Get. lia.
  - destruct (I _ _ H) as [Len Get]. fold i in Len.
    assert (Bj : j < n).
    { rewrite <- L. apply nth_error_Some. congruence. }
    split.
    + rewrite Len.
      destruct (succ_div_mod m Hn) as [(A & -> & ->)|(A & -> & ->)]; fold i in A |- *.
      * destruct (Nat.ltb_spec j i), (Nat.ltb_spec j (S i)); lia.
      * destruct (Nat.ltb_spec j i), (Nat.ltb_spec j 0); lia.
    + intros k Hk. rewrite (Get k Hk).
      assert (j + k * n < m).
      { rewrite Len in Hk. destruct (Nat.ltb_spec j i); nia. }
      now rewrite nth_error_app1 by (fold m; lia).
Qed.

Lemma deal_loop_round_robin (n : nat) (popped : list Card) :
  0 < n ->
  forall (dealt : list Card) (hs : list Hand),
    dealt_so_far n dealt hs ->
    dealt_so_far n (dealt ++ popped) (deal_loop n popped (length dealt mod n) hs).
Proof.
  intros Hn. induction popped as [|c rest IH]; intros dealt hs H; simpl.
  - now rewrite app_nil_r.
  - pose proof (dealt_one_more c Hn H) as H1.
    specialize (IH _ _ H1).
    rewrite length_app, Nat.add_1_r in IH. rewrite <- app_assoc in IH.
    destruct (succ_div_mod (length dealt) Hn) as [(A & _ & E)|(A & _ & E)].
    + rewrite E in IH. rewrite Nat.mod_small by lia. exact IH.
    + rewrite E in IH. rewrite A, Nat.Div0.mod_same. exact IH.
Qed.

Lemma deal_dealt (shuffle : list Card -> list Card) (deck : list Card)
      (num_players : Z) :
  (0 < num_players)%Z ->
  dealt_so_far (Z.to_nat num_players) (rev (shuffle deck))
               (deal shuffle deck num_players).
Proof.
  intros Hn. set (n := Z.to_nat num_players). set (popped := rev (shuffle deck)).
  assert (Pn : 0 < n) by (unfold n; lia).
  assert (E : deal shuffle deck num_players =
              deal_loop n popped (length (@nil Card) mod n) (repeat [] n)).
  { unfold deal. fold n. destruct n as [|m]; [lia|].
    simpl length. rewrite Nat.Div0.mod_0_l. reflexivity. }
  rewrite E.
  apply (@deal_loop_round_robin n popped Pn [] (repeat [] n)).
  split; [apply repeat_length|].
  intros j h H. apply nth_error_In, repeat_spec in H. subst h.
  simpl. rewrite Nat.Div0.div_0_l, Nat.Div0.mod_0_l.
  split; [reflexivity|]. intros k Hk. lia.
Qed.

(** [deal] hands the shuffled deck out from its end, one card per player
    per round: with [num_players >= 1] there are [num_players] hands, and
    the card popped in position [p] (the deck read from its end, from 0)
    is card number [p / num_players] of hand [p mod num_players].  So hand
    [j] holds [len / n] cards, one more if [j < len mod n]: the leftover
    cards go to the first players. *)
Theorem deal_round_robin
        (shuffle : list Card -> list Card) (deck : list Card) (num_players : Z) :
  (0 < num_players)%Z ->
  let n := Z.to_nat num_players in
  let popped := rev (shuffle deck) in
  length (deal shuffle deck num_players) = n /\
  forall j h,
    nth_error (deal shuffle deck num_players) j = Some h ->
    length h = length popped / n + (if j <? length popped mod n then 1 else 0) /\
    forall k, k < length h -> nth_error h k = nth_error popped (j + k * n).
Proof.
  intros Hn n popped. exact (deal_dealt shuffle deck Hn).
Qed.

Lemma deal_round_robin_witness :
  length (deal no_shuffle new_deck 3) = 3 /\
  map (@length Card) (deal no_shuffle new_deck 3) = [18; 17; 17].
Proof.
  split.
  - exact (proj1 (@deal_round_robin no_shuffle new_deck 3 eq_refl)).
  - reflexivity.
Defined.

(** ** The slap detector reads three cards *)

(** [slappable] looks at the top three cards only: whatever lies under
    them does not change its answer. *)
Theorem slappable_top_three (under : list Card) (a b c : Card) :
  slappable (under ++ [a; b; c]) = slappable [a; b; c].
Proof.
  rewrite !slappable_rev, rev_app_distr. reflexivity.
Qed.

(** ** What the loop keeps true *)

(** The number of non-empty hands among the players other than [i]. *)
Definition others_count (hs : list Hand) (i : nat) : nat :=
  nonempty_count (Py.set_nth i [] hs).

Definition holds_cards (h : Hand) : nat :=
  match h with [] => 0 | _ => 1 end.

Lemma nonempty_count_set_nth (hs : list Hand) (i : nat) (h : Hand) :
  i < length hs ->
  nonempty_count (Py.set_nth i h hs) = others_count hs i + holds_cards h.
Proof.
  unfold others_count. revert i.
  induction hs as [|x t IH]; intros [|i] Hi; simpl in Hi; try lia.
  - simpl Py.set_nth. rewrite !nonempty_count_cons. destruct h; simpl; lia.
  - simpl Py.set_nth. rewrite !nonempty_count_cons.
    rewrite (IH i) by lia. destruct x; lia.
Qed.

Lemma nonempty_count_split (hs : list Hand) (i : nat) (h : Hand) :
  nth_error hs i = Some h ->
  nonempty_count hs = others_count hs i + holds_cards h.
Proof.
  intros H. rewrite <- (@set_nth_same _ i h hs H) at 1.
  apply nonempty_count_set_nth. apply nth_error_Some. congruence.
Qed.

Lemma set_nth_twice (A : Type) (i : nat) (x y : A) (l : list A) :
  Py.set_nth i x (Py.set_nth i y l) = Py.set_nth i x l.
Proof.
  revert i. induction l as [|h t IH]; intros [|i]; simpl; auto.
  now rewrite IH.
Qed.

Lemma set_nth_swap (A : Type) (i j : nat) (x y : A) (l : list A) :
  i <> j ->
  Py.set_nth i x (Py.set_nth j y l) = Py.set_nth j y (Py.set_nth i x l).
Proof.
  revert i j. induction l as [|h t IH]; intros [|i] [|j] N; simpl; auto; try lia.
  rewrite IH by lia. reflexivity.
Qed.

Lemma others_count_set_same (hs : list Hand) (i : nat) (h : Hand) :
  others_count (Py.set_nth i h hs) i = others_count hs i.
Proof. unfold others_count. now rewrite set_nth_twice. Qed.

Lemma give_pile_spec (hs : list Hand) (j : nat) (p : list Card) :
  j < length hs ->
  exists old, nth_error hs j = Some old /\
              give_pile hs j p = Py.set_nth j (p ++ old) hs.
Proof.
  intros Hj. destruct (nth_error hs j) as [old|] eqn:E.
  - exists old. split; [reflexivity|]. now apply nth_error_give_pile.
  - apply nth_error_None in E. lia.
Qed.

Lemma holds_cards_app (p h : Hand) : holds_cards h <= holds_cards (p ++ h).
Proof. destruct p, h; simpl; lia. Qed.

Lemma give_pile_count (hs : list Hand) (j : nat) (p : list Card) :
  j < length hs ->
  nonempty_count hs <= nonempty_count (give_pile hs j p).
Proof.
  intros Hj. destruct (@give_pile_spec hs j p Hj) as (old & E & ->).
  rewrite (@nonempty_count_split hs j old E), nonempty_count_set_nth by assumption.
  pose proof (holds_cards_app p old). lia.
Qed.

Lemma give_pile_others (hs : list Hand) (i j : nat) (p : list Card) :
  j < length hs ->
  others_count hs i <= others_count (give_pile hs j p) i.
Proof.
  intros Hj. destruct (@give_pile_spec hs j p Hj) as (old & E & ->).
  destruct (Nat.eq_dec i j) as [->|N].
  - now rewrite others_count_set_same.
  - unfold others_count. rewrite set_nth_swap by assumption.
    assert (E' : nth_error (Py.set_nth i [] hs) j = Some old).
    { rewrite nth_error_set_nth_neq by assumption. assumption. }
    rewrite (@nonempty_count_split _ j old E').
    rewrite nonempty_count_set_nth by (rewrite set_nth_length; assumption).
    pose proof (holds_cards_app p old). lia.
Qed.

(** The invariant of the loop on the challenge and on who holds cards. *)
Record game_inv (n : nat) (c : Config) : Prop := mkGameInv {
  gi_wf : wf n c;
  gi_chances : (0 <= chances (st c) <= 4)%Z;
  gi_idle : loc c = AtFor -> challenger (st c) = None -> chances (st c) = 0%Z;
  gi_open : loc c = AtFor -> challenger (st c) <> None -> (1 <= chances (st c))%Z;
  gi_pile : (0 < chances (st c))%Z -> pile (st c) <> [];
  gi_pushed : forall card, loc c = AfterPush card ->
                           exists p, pile (st c) = p ++ [card];
  gi_someone : loc c = AtFor -> 1 <= nonempty_count (hands (st c));
  gi_others : loc c <> AtFor ->
              1 <= others_count (hands (st c)) (hand_index n (turn c))
}.

Lemma app_not_nil (A : Type) (l : list A) (x : A) : l ++ [x] <> [].
Proof. destruct l; discriminate. Qed.

Ltac gi_auto :=
  constructor; simpl; try assumption; try discriminate; try lia;
  try (let F := fresh in intros F; now elim F);
  try (intros; apply app_not_nil).

Lemma step_game_inv (n : nat) (slap : nat -> Z) (c c' : Config) :
  0 < n -> game_inv n c -> step n slap c = Next c' -> game_inv n c'.
Proof.
  intros Hn [W C I O P Pu Sm Ot] H.
  pose proof (@step_wf n slap c c' Hn W H) as W'.
  destruct W as [L Wc Wl Wt].
  destruct c as [l t [hs p k ch sc]]. simpl in *.
  assert (Bi : hand_index n t < length hs) by (rewrite L; now apply hand_index_lt).
  unfold step in H. simpl in H.
  destruct (nth_error hs (hand_index n t)) as [hand|] eqn:E; [|discriminate].
  pose proof (@nonempty_count_split hs _ hand E) as Split.
  destruct l as [| |card|].
  - (* top of the iteration *)
    destruct (nonempty_count hs =? 1) eqn:N1; [discriminate|].
    apply Nat.eqb_neq in N1.
    destruct (Py.pop hand) as [[card rest]|] eqn:Pop.
    + apply pop_some in Pop. subst hand.
      assert (Hc : holds_cards (rest ++ [card]) = 1) by (destruct rest; reflexivity).
      destruct ch as [j|].
      * injection H as <-. gi_auto.
      * specialize (I eq_refl eq_refl). subst k.
        destruct (royal (face card)) as [v|] eqn:R; injection H as <-; gi_auto;
          try (apply royal_range in R; lia);
          try (intros; apply royal_range in R; lia);
          try (intros _; rewrite nonempty_count_set_nth by assumption; lia).
    + injection H as <-. gi_auto.
  - (* the test of the while loop *)
    specialize (Ot ltac:(discriminate)).
    destruct (0 <? k)%Z eqn:K.
    + apply Z.ltb_lt in K.
      destruct (Py.pop hand) as [[card rest]|] eqn:Pop.
      * injection H as <-. gi_auto.
        -- intros card' [= <-]. now exists p.
        -- intros _. now rewrite others_count_set_same.
      * injection H as <-. gi_auto.
    + injection H as <-. gi_auto.
  - (* after a push *)
    specialize (Ot ltac:(discriminate)).
    destruct (slappable p).
    + destruct (Py.index (length hs) (slap sc)) as [j|] eqn:J; [|discriminate].
      apply index_lt in J.
      injection H as <-. gi_auto.
      intros _. pose proof (@give_pile_others hs (hand_index n t) j p J). lia.
    + destruct (royal (face card)) as [v|] eqn:R; injection H as <-; gi_auto;
        try (apply royal_range in R; lia).
      intros _. destruct (Pu card eq_refl) as [p0 ->]. apply app_not_nil.
  - (* after the while loop *)
    specialize (Ot ltac:(discriminate)).
    destruct (k =? 0)%Z eqn:K.
    + destruct ch as [j|]; [|discriminate].
      destruct (nth_error hs j) eqn:Ej; [|discriminate].
      assert (Bj : j < length hs) by (apply nth_error_Some; congruence).
      apply Z.eqb_eq in K.
      injection H as <-. gi_auto.
      intros _. pose proof (@give_pile_count hs j p Bj). lia.
    + apply Z.eqb_neq in K.
      injection H as <-. gi_auto.
      intros _ F. exfalso. apply (Wl ltac:(discriminate)). exact F.
Qed.

Lemma init_game_inv (shuffle : list Card -> list Card) (num_players : Z) :
  (0 < num_players)%Z ->
  Permutation (shuffle new_deck) new_deck ->
  game_inv (Z.to_nat num_players) (init shuffle num_players).
Proof.
  intros Hn Hs.
  destruct (deal_dealt shuffle new_deck Hn) as [L R].
  constructor; simpl; try discriminate; try lia.
  - now apply init_wf.
  - intros F. now elim F.
  - intros _.
    destruct (nth_error (deal shuffle new_deck num_players) 0) as [h|] eqn:E.
    + destruct (R 0 h E) as [Len _].
      rewrite (@nonempty_count_split _ 0 h E).
      rewrite length_rev, (Permutation_length Hs), new_deck_length in Len.
      set (n := Z.to_nat num_players) in *.
      assert (Pn : 0 < n) by (unfold n; lia).
      pose proof (Nat.div_mod_eq 52 n) as D.
      assert (1 <= length h).
      { rewrite Len. destruct (Nat.ltb_spec 0 (52 mod n)); [lia|].
        assert (52 / n <> 0) by nia. lia. }
      destruct h; simpl in *; lia.
    + apply nth_error_None in E. lia.
  - intros F. now elim F.
Qed.

Lemma simulate_game_inv (shuffle : list Card -> list Card) (num_players : Z)
      (slap : nat -> Z) (steps : nat) :
  (0 < num_players)%Z ->
  Permutation (shuffle new_deck) new_deck ->
  game_inv (Z.to_nat num_players) (fst (simulate shuffle num_players slap steps)).
Proof.
  intros Hn Hs. rewrite simulate_run by assumption.
  apply (@run_inv (Z.to_nat num_players) slap (game_inv (Z.to_nat num_players))).
  - intros c c' G E. eapply step_game_inv; try eassumption. lia.
  - now apply init_game_inv.
Qed.

(** ** The loop never fails *)

Lemma step_no_raise (n : nat) (slap : nat -> Z) (c : Config) (e : Exn) :
  0 < n -> wf n c ->
  (- Z.of_nat n <= slap (slap_calls (st c)) < Z.of_nat n)%Z ->
  step n slap c <> Raise e.
Proof.
  intros Hn [L Wc Wl Wt] V H.
  pose proof (hand_index_lt (turn c) Hn) as Bi.
  unfold step in H.
  destruct (nth_error (hands (st c)) (hand_index n (turn c))) as [hand|] eqn:E.
  - destruct (loc c) as [| |card|] eqn:Lc.
    + destruct (nonempty_count (hands (st c)) =? 1); [discriminate|].
      destruct (Py.pop hand) as [[card rest]|]; [|discriminate].
      destruct (challenger (st c)); [discriminate|].
      destruct (royal (face card)); discriminate.
    + destruct (0 <? chances (st c))%Z; [|discriminate].
      destruct (Py.pop hand) as [[card rest]|]; discriminate.
    + destruct (slappable (pile (st c))).
      * destruct (Py.index (length (hands (st c))) (slap (slap_calls (st c)))) eqn:J;
          [discriminate|].
        rewrite L in J. unfold Py.index in J.
        destruct (Z.leb_spec 0 (slap (slap_calls (st c))));
          destruct (Z.ltb_spec (slap (slap_calls (st c))) (Z.of_nat n));
          destruct (Z.ltb_spec (slap (slap_calls (st c))) 0);
          destruct (Z.leb_spec (- Z.of_nat n) (slap (slap_calls (st c))));
          simpl in J; try discriminate; lia.
      * destruct (royal (face card)); discriminate.
    + destruct (chances (st c) =? 0)%Z; [|discriminate].
      destruct (challenger (st c)) as [j|] eqn:Ch.
      * destruct (nth_error (hands (st c)) j) eqn:Ej; [discriminate|].
        apply nth_error_None in Ej. specialize (Wc j eq_refl). lia.
      * apply Wl; [discriminate|reflexivity].
  - apply nth_error_None in E. lia.
Qed.

Lemma run_never_raises (n : nat) (slap : nat -> Z) (fuel : nat) (c : Config) :
  0 < n -> wf n c ->
  (forall k, - Z.of_nat n <= slap k < Z.of_nat n)%Z ->
  snd (run n slap fuel c) = Running \/
  exists t w, snd (run n slap fuel c) = Returned t w /\ 1 <= t /\ w < n.
Proof.
  intros Pn W V. revert c W.
  induction fuel as [|fuel IH]; intros c W; [now left|].
  rewrite run_S. destruct (step n slap c) as [c'|t w|e] eqn:E.
  - apply IH. now apply (@step_wf n slap c c').
  - right. exists t, w. split; [reflexivity|].
    apply step_return in E. destruct E as (_ & -> & C1 & ->).
    destruct (one_nonempty _ C1) as (h & A & _).
    destruct W as [L _ _ T]. split; [exact T|].
    rewrite <- L. apply nth_error_Some. congruence.
  - exfalso. apply (@step_no_raise n slap c e Pn W); [|exact E]. apply V.
Qed.

(** With at least one player, a shuffle that permutes the deck and an
    arbiter whose every answer is a Python index of a hand, the loop
    never raises and never falls off its end: after any number of steps
    the game is still running or has returned [(turn, winner)] with
    [turn >= 1] and [winner] a player. *)
Theorem simulate_game_never_raises
        (shuffle : list Card -> list Card) (num_players : Z)
        (slap : nat -> Z) (fuel : nat) :
  (0 < num_players)%Z ->
  Permutation (shuffle new_deck) new_deck ->
  (forall k, - num_players <= slap k < num_players)%Z ->
  simulate_game shuffle num_players slap fuel = Running \/
  exists t w,
    simulate_game shuffle num_players slap fuel = Returned t w /\
    1 <= t /\ w < Z.to_nat num_players.
Proof.
  intros Hn Hs V.
  unfold simulate_game. rewrite simulate_run by assumption.
  apply run_never_raises.
  - lia.
  - now apply init_wf.
  - intros k. specialize (V k). lia.
Qed.

Lemma simulate_game_never_raises_witness :
  simulate_game no_shuffle 2 (always 1) 400 = Running \/
  exists t w,
    simulate_game no_shuffle 2 (always 1) 400 = Returned t w /\ 1 <= t /\ w < 2.
Proof.
  apply (@simulate_game_never_raises no_shuffle 2 (always 1) 400).
  - reflexivity.
  - apply Permutation_refl.
  - intros k. unfold always. lia.
Defined.

(** ** The state of the challenge *)

(** In a game, at every step: [chances] is between 0 and 4 and there are
    [num_players] hands.  At the top of an iteration, no challenger goes
    with [chances = 0]; a challenger is a player, has [chances >= 1], and
    the pile is not empty.  Right after a chance card was pushed, that
    card is the top of the pile. *)
Theorem challenge_state_invariant
        (shuffle : list Card -> list Card) (num_players : Z)
        (slap : nat -> Z) (steps : nat) :
  (0 < num_players)%Z ->
  Permutation (shuffle new_deck) new_deck ->
  let c := fst (simulate shuffle num_players slap steps) in
  length (hands (st c)) = Z.to_nat num_players /\
  (0 <= chances (st c) <= 4)%Z /\
  (loc c = AtFor -> challenger (st c) = None -> chances (st c) = 0%Z) /\
  (loc c = AtFor -> forall ch, challenger (st c) = Some ch ->
     ch < Z.to_nat num_players /\ (1 <= chances (st c))%Z /\ pile (st c) <> []) /\
  (forall card, loc c = AfterPush card ->
     exists p, pile (st c) = p ++ [card]).
Proof.
  intros Hn Hs c.
  destruct (simulate_game_inv shuffle slap steps Hn Hs)
    as [[L Wc _ _] C I O P Pu _ _].
  fold c in L, Wc, C, I, O, P, Pu.
  repeat split; try assumption; try lia.
  - now apply Wc.
  - apply O; congruence.
  - apply P. assert (1 <= chances (st c))%Z by (apply O; congruence). lia.
Qed.

Lemma challenge_state_invariant_witness :
  let c := fst (simulate no_shuffle 2 (always 0) 40) in
  length (hands (st c)) = 2 /\ (0 <= chances (st c) <= 4)%Z.
Proof.
  intros c.
  destruct (@challenge_state_invariant no_shuffle 2 (always 0) 40 eq_refl
              (Permutation_refl _)) as (A & B & _).
  split; [exact A|exact B].
Defined.

(** ** Who holds cards *)

(** In a game, at the top of every iteration at least one hand holds
    cards; and while a challenged player is playing chance cards, some
    other player holds cards. *)
Theorem someone_holds_cards
        (shuffle : list Card -> list Card) (num_players : Z)
        (slap : nat -> Z) (steps : nat) :
  (0 < num_players)%Z ->
  Permutation (shuffle new_deck) new_deck ->
  let c := fst (simulate shuffle num_players slap steps) in
  (loc c = AtFor -> 1 <= nonempty_count (hands (st c))) /\
  (loc c <> AtFor ->
   1 <= others_count (hands (st c)) (hand_index (Z.to_nat num_players) (turn c))).
Proof.
  intros Hn Hs c.
  destruct (simulate_game_inv shuffle slap steps Hn Hs) as [_ _ _ _ _ _ Sm Ot].
  split; assumption.
Qed.

Lemma someone_holds_cards_witness :
  let c := fst (simulate no_shuffle 3 (always 0) 30) in
  loc c = AtFor /\ 1 <= nonempty_count (hands (st c)).
Proof.
  intros c. split; [reflexivity|].
  apply (proj1 (@someone_holds_cards no_shuffle 3 (always 0) 30 eq_refl
                  (Permutation_refl _))).
  reflexivity.
Defined.

Lemma two_hands_other (hs : list Hand) (i : nat) :
  length hs = 2 -> i < 2 -> 1 <= others_count hs i ->
  exists card rest, nth_error hs (1 - i) = Some (rest ++ [card]).
Proof.
  intros L Hi O.
  destruct hs as [|a [|b [|x hs]]]; try discriminate L.
  assert (N : forall h : Hand, 1 <= holds_cards h ->
                               exists card rest, h = rest ++ [card]).
  { intros h Hh. destruct (Py.pop h) as [[card rest]|] eqn:P.
    - exists card, rest. now apply pop_some.
    - apply pop_none in P. subst h. simpl in Hh. lia. }
  destruct i as [|[|i]]; try lia; unfold others_count in O;
    cbn [Py.set_nth] in O; rewrite !nonempty_count_cons in O; cbn in O.
  - destruct (N b) as (card & rest & ->); [destruct b; simpl in *; lia|].
    now exists card, rest.
  - destruct (N a) as (card & rest & ->); [destruct a; simpl in *; lia|].
    now exists card, rest.
Qed.

Lemma hand_index_two (t : nat) : 1 <= t -> hand_index 2 (S t) = 1 - hand_index 2 t.
Proof.
  intros Ht. rewrite hand_index_S by assumption.
  pose proof (@hand_index_lt 2 t ltac:(lia)) as B.
  destruct (hand_index 2 t) as [|[|i]]; try lia; reflexivity.
Qed.

(** What a two-player game keeps besides [game_inv]: at the top of an
    iteration the player whose turn it is holds cards. *)
Definition two_inv (c : Config) : Prop :=
  game_inv 2 c /\
  (loc c = AtFor ->
   exists card rest,
     nth_error (hands (st c)) (hand_index 2 (turn c)) = Some (rest ++ [card])).

Arguments hand_index : simpl never.

Lemma step_two_inv (slap : nat -> Z) (c c' : Config) :
  two_inv c -> step 2 slap c = Next c' -> two_inv c'.
Proof.
  intros [G Cur] H.
  pose proof (@step_game_inv 2 slap c c' ltac:(lia) G H) as G'.
  split; [exact G'|]. intros Lc'.
  destruct G as [[L _ Wl Wt] _ _ _ _ _ _ Ot].
  pose proof (@hand_index_lt 2 (turn c) ltac:(lia)) as Bi.
  destruct c as [l t [hs p k ch sc]]. cbn [loc turn st hands] in *.
  unfold step in H. cbn [loc turn st hands pile chances challenger slap_calls] in H.
  destruct l as [| |card|].
  - destruct (Cur eq_refl) as (card & rest & E). rewrite E, pop_snoc in H.
    destruct (nonempty_count hs =? 1) eqn:N1; [discriminate|].
    apply Nat.eqb_neq in N1.
    pose proof (@nonempty_count_split hs _ _ E) as Split.
    assert (Hc : holds_cards (rest ++ [card]) = 1) by (destruct rest; reflexivity).
    assert (O : 1 <= others_count hs (hand_index 2 t)).
    { destruct (others_count hs (hand_index 2 t)); lia. }
    destruct (two_hands_other hs L Bi O) as (card' & rest' & E').
    destruct ch as [j|].
    + injection H as <-. discriminate Lc'.
    + assert (D : 1 - hand_index 2 t <> hand_index 2 t) by lia.
      destruct (royal (face card)); injection H as <-;
        cbn [loc turn st hands]; rewrite hand_index_two by assumption;
        exists card', rest';
        (rewrite nth_error_set_nth_neq by lia); exact E'.
  - destruct (nth_error hs (hand_index 2 t)) as [hand|]; [|discriminate].
    destruct (0 <? k)%Z; [destruct (Py.pop hand) as [[x r]|]|];
      injection H as <-; discriminate Lc'.
  - destruct (nth_error hs (hand_index 2 t)) as [hand|]; [|discriminate].
    destruct (slappable p);
      [destruct (Py.index (length hs) (slap sc)); [|discriminate]
      |destruct (royal (face card))];
      injection H as <-; discriminate Lc'.
  - specialize (Ot ltac:(discriminate)).
    destruct (nth_error hs (hand_index 2 t)) as [hand|]; [|discriminate].
    destruct (k =? 0)%Z.
    + destruct ch as [j|]; [|discriminate].
      destruct (nth_error hs j) eqn:Ej; [|discriminate].
      assert (Bj : j < length hs) by (apply nth_error_Some; congruence).
      injection H as <-. cbn [loc turn st hands].
      rewrite hand_index_two by assumption.
      apply two_hands_other; [now rewrite give_pile_length|assumption|].
      pose proof (@give_pile_others hs (hand_index 2 t) j p Bj). lia.
    + injection H as <-. cbn [loc turn st hands].
      rewrite hand_index_two by assumption.
      now apply two_hands_other.
Qed.

(** With two players the branch [if not hand: continue] never runs: at
    the top of every iteration the player whose turn it is holds at least
    one card, so the step either returns or plays a card. *)
Theorem two_players_never_skip
        (shuffle : list Card -> list Card) (slap : nat -> Z) (steps : nat) :
  Permutation (shuffle new_deck) new_deck ->
  let c := fst (simulate shuffle 2 slap steps) in
  loc c = AtFor ->
  exists card rest,
    nth_error (hands (st c)) (hand_index 2 (turn c)) = Some (rest ++ [card]) /\
    step 2 slap c <> Next (mkConfig AtFor (S (turn c)) (st c)).
Proof.
  intros Hs c Lc.
  assert (T : two_inv c).
  { unfold c. rewrite simulate_run by reflexivity.
    apply (@run_inv 2 slap two_inv).
    - intros c0 c1 T0 E. eapply step_two_inv; eassumption.
    - split; [now apply (@init_game_inv shuffle 2)|]. intros _.
      destruct (@init_game_inv shuffle 2 eq_refl Hs) as [[L _ _ _] _ _ _ _ _ Sm _].
      cbn [init loc turn st hands] in *. specialize (Sm eq_refl).
      change (Z.to_nat 2) with 2 in L.
      destruct (@deal_dealt shuffle new_deck 2 eq_refl) as [_ R].
      destruct (deal shuffle new_deck 2) as [|a [|b [|x hs]]] eqn:D;
        try discriminate L.
      destruct (R 0 a eq_refl) as [Len _].
      rewrite length_rev, (Permutation_length Hs), new_deck_length in Len.
      change (hand_index 2 1) with 0. cbn [nth_error].
      destruct (Py.pop a) as [[card rest]|] eqn:P.
      + exists card, rest. f_equal. now apply pop_some.
      + apply pop_none in P. subst a. discriminate Len. }
  destruct T as [_ Cur]. destruct (Cur Lc) as (card & rest & E).
  exists card, rest. split; [exact E|].
  unfold step. rewrite E, Lc, pop_snoc.
  destruct (nonempty_count (hands (st c)) =? 1); [discriminate|].
  destruct (challenger (st c)); [discriminate|].
  destruct (royal (face card)); intros [= F]; apply (f_equal pile) in F;
    apply (f_equal (@length Card)) in F; cbn [pile] in F;
    rewrite length_app in F; simpl in F; lia.
Qed.

Lemma two_players_never_skip_witness :
  let c := fst (simulate no_shuffle 2 (always 1) 100) in
  exists card rest,
    nth_error (hands (st c)) (hand_index 2 (turn c)) = Some (rest ++ [card]).
Proof.
  intros c.
  destruct (@two_players_never_skip no_shuffle (always 1) 100
              (Permutation_refl _)) as (card & rest & E & _).
  - vm_compute. reflexivity.
  - exists card, rest. exact E.
Defined.

(** ** One player *)

(** A game of one player returns at its first check: [(1, 0)], all the
    cards in the one hand, nothing played. *)
Theorem one_player_game
        (shuffle : list Card -> list Card) (slap : nat -> Z) (fuel : nat) :
  Permutation (shuffle new_deck) new_deck ->
  simulate_game shuffle 1 slap (S fuel) = Returned 1 0 /\
  exists h, deal shuffle new_deck 1 = [h] /\ Permutation h new_deck.
Proof.
  intros Hs.
  destruct (@deal_spec shuffle new_deck 1 eq_refl) as [L P].
  destruct (deal shuffle new_deck 1) as [|h [|x hs]] eqn:D; try discriminate L.
  simpl in P. rewrite app_nil_r in P.
  assert (Hh : h <> []).
  { intros ->. apply Permutation_length in P, Hs.
    rewrite Hs, new_deck_length in P. discriminate P. }
  split.
  - unfold simulate_game. rewrite simulate_run by reflexivity.
    change (Z.to_nat 1) with 1. rewrite run_S. unfold step, init. cbn [loc turn st hands]. rewrite D.
    destruct h as [|c h]; [now elim Hh|]. reflexivity.
  - exists h. split; [reflexivity|]. now rewrite P.
Qed.

Lemma one_player_game_witness :
  simulate_game no_shuffle 1 (always 0) 1 = Returned 1 0.
Proof.
  exact (proj1 (@one_player_game no_shuffle (always 0) 0 (Permutation_refl _))).
Defined.

(** ** When the arbiter is asked *)

Lemma slappable_two (pile : list Card) : slappable pile = true -> 2 <= length pile.
Proof.
  rewrite slappable_rev, <- (length_rev pile).
  destruct (rev pile) as [|b [|a rest]]; try discriminate. simpl. lia.
Qed.

(** In a game, the step that asks the arbiter finds at least two cards on
    the pile, the top one being the chance card just pushed, and hands
    the whole pile to the player the answer indexes, leaving the pile
    empty and [chances = 0]. *)
Theorem arbiter_call
        (shuffle : list Card -> list Card) (num_players : Z)
        (slap : nat -> Z) (steps : nat) (c' : Config) :
  (0 < num_players)%Z ->
  Permutation (shuffle new_deck) new_deck ->
  let c := fst (simulate shuffle num_players slap steps) in
  step (Z.to_nat num_players) slap c = Next c' ->
  slap_calls (st c') <> slap_calls (st c) ->
  exists card under j,
    loc c = AfterPush card /\
    pile (st c) = under ++ [card] /\ 2 <= length (pile (st c)) /\
    Py.index (Z.to_nat num_players) (slap (slap_calls (st c))) = Some j /\
    hands (st c') = give_pile (hands (st c)) j (pile (st c)) /\
    pile (st c') = [] /\ chances (st c') = 0%Z.
Proof.
  intros Hn Hs c H D.
  destruct (simulate_game_inv shuffle slap steps Hn Hs) as [[L _ _ _] _ _ _ _ Pu _ _].
  fold c in L, Pu. clearbody c.
  unfold step in H.
  destruct (nth_error (hands (st c)) (hand_index (Z.to_nat num_players) (turn c)))
    as [hand|]; [|discriminate].
  destruct (loc c) as [| |card|] eqn:Lc.
  - exfalso. destruct (nonempty_count (hands (st c)) =? 1); [discriminate|].
    destruct (Py.pop hand) as [[card rest]|];
      [destruct (challenger (st c)); [|destruct (royal (face card))]|];
      injection H as <-; simpl in D; congruence.
  - exfalso. destruct (0 <? chances (st c))%Z;
      [destruct (Py.pop hand) as [[card rest]|]|];
      injection H as <-; simpl in D; congruence.
  - destruct (slappable (pile (st c))) eqn:Sl.
    + destruct (Py.index (length (hands (st c))) (slap (slap_calls (st c))))
        as [j|] eqn:J; [|discriminate].
      injection H as <-. destruct (Pu card eq_refl) as [under E].
      exists card, under, j. rewrite <- L. simpl.
      repeat split; auto. now apply slappable_two.
    + exfalso. destruct (royal (face card)); injection H as <-; simpl in D; congruence.
  - exfalso. destruct (chances (st c) =? 0)%Z;
      [destruct (challenger (st c)) as [j|];
       [destruct (nth_error (hands (st c)) j)|]|];
      try discriminate; injection H as <-; simpl in D; congruence.
Qed.

Lemma arbiter_call_witness :
  let c := fst (simulate no_shuffle 2 (always 0) 39) in
  exists c' card under,
    step (Z.to_nat 2) (always 0) c = Next c' /\
    loc c = AfterPush card /\ pile (st c) = under ++ [card] /\
    hands (st c') = give_pile (hands (st c)) 0 (pile (st c)).
Proof.
  intros c.
  destruct (step (Z.to_nat 2) (always 0) c) as [c'| |] eqn:E;
    [|vm_compute in E; discriminate E..].
  assert (D : slap_calls (st c') <> slap_calls (st c)).
  { vm_compute in E. injection E as <-. vm_compute. discriminate. }
  destruct (@arbiter_call no_shuffle 2 (always 0) 39 c' eq_refl
              (Permutation_refl _) E D)
    as (card & under & j & Lc & Pc & _ & J & Hh & _).
  exists c', card, under. repeat split; try assumption.
  vm_compute in J. injection J as <-. exact Hh.
Defined.

(** ** Playing a last card *)

(** A player who, outside a challenge, plays their only card while one
    other player holds cards ends the game: the next check returns the
    next turn number and that other player, with the card played still on
    the pile (a royal among them is never answered). *)
Theorem last_card_ends_game
        (n : nat) (slap : nat -> Z) (fuel t : nat) (s : State) (c : Card) :
  1 <= t -> length (hands s) = n ->
  nth_error (hands s) (hand_index n t) = Some [c] ->
  nonempty_count (hands s) = 2 ->
  challenger s = None ->
  exists w h,
    w <> hand_index n t /\ nth_error (hands s) w = Some h /\ h <> [] /\
    snd (run n slap (S (S fuel)) (mkConfig AtFor t s)) = Returned (S t) w /\
    pile (st (fst (run n slap (S (S fuel)) (mkConfig AtFor t s)))) = pile s ++ [c].
Proof.
  intros Ht L H C Ch.
  assert (Hi : hand_index n t < length (hands s)).
  { apply nth_error_Some. congruence. }
  assert (Pn : 0 < n) by lia.
  set (hs := Py.set_nth (hand_index n t) [] (hands s)).
  assert (C1 : nonempty_count hs = 1).
  { pose proof (@nonempty_count_split (hands s) _ _ H) as Sp.
    unfold hs. fold (others_count (hands s) (hand_index n t)).
    simpl in Sp. lia. }
  assert (He : nth_error hs (hand_index n t) = Some []).
  { apply nth_error_set_nth_eq. assumption. }
  destruct (one_nonempty _ C1) as (h & A & B & _).
  assert (Nw : Py.argmax (map (@length Card) hs) <> hand_index n t).
  { intros F. rewrite F in A. pose proof (eq_trans (eq_sym A) He) as X.
    injection X as ->. now elim B. }
  exists (Py.argmax (map (@length Card) hs)), h.
  split; [exact Nw|]. split.
  { unfold hs in A at 1. now rewrite nth_error_set_nth_neq in A by congruence. }
  split; [exact B|].
  rewrite run_S.
  rewrite (@step_for_play n slap t s [] c H) by (assumption || lia).
  fold hs. rewrite run_S.
  pose proof (@hand_index_lt n (S t) Pn) as Bi.
  destruct (nth_error hs (hand_index n (S t))) as [hand|] eqn:E.
  - match goal with
    | |- context [step n slap (mkConfig AtFor (S t) ?s1)] =>
        rewrite (@step_for_return n slap (S t) s1 hand E C1)
    end.
    split; reflexivity.
  - apply nth_error_None in E. unfold hs in E. rewrite set_nth_length in E.
    exfalso. apply (Nat.lt_irrefl n).
    apply Nat.le_lt_trans with (hand_index n (S t)); [|exact Bi].
    rewrite <- L at 1. exact E.
Qed.

Lemma last_card_ends_game_witness :
  let s := mkState [[mkCard Jack Clubs]; [mkCard (Num 2) Hearts; mkCard (Num 3) Hearts]]
                   [mkCard (Num 5) Spades] 0 None 0 in
  exists w,
    snd (run 2 (always 0) 2 (mkConfig AtFor 1 s)) = Returned 2 w /\
    pile (st (fst (run 2 (always 0) 2 (mkConfig AtFor 1 s)))) =
    [mkCard (Num 5) Spades; mkCard Jack Clubs].
Proof.
  intros s.
  destruct (@last_card_ends_game 2 (always 0) 0 1 s (mkCard Jack Clubs)
              (le_n 1) eq_refl eq_refl eq_refl eq_refl)
    as (w & h & _ & _ & _ & R & P).
  exists w. split; [exact R|exact P].
Defined.

(** ** Chance cards *)

Definition plain (c : Card) : Prop := royal (face c) = None.

(** The cards [l], from the top of the challenged hand down, are pushed
    one after the other while there are chances, as long as none is a
    royal and none makes the pile slappable. *)
Lemma play_chances (n : nat) (slap : nat -> Z) (t : nat) (l : list Card) :
  forall (s : State) (rest : Hand),
    nth_error (hands s) (hand_index n t) = Some (rest ++ rev l) ->
    (Z.of_nat (length l) <= chances s)%Z ->
    Forall plain l ->
    (forall k, 1 <= k <= length l -> slappable (pile s ++ firstn k l) = false) ->
    run n slap (2 * length l) (mkConfig AtWhile t s) =
    (mkConfig AtWhile t
       (mkState (Py.set_nth (hand_index n t) rest (hands s)) (pile s ++ l)
                (chances s - Z.of_nat (length l)) (challenger s) (slap_calls s)),
     Running).
Proof.
  induction l as [|a l IH]; intros s rest H C R Sl.
  - rewrite app_nil_r in H. simpl run.
    rewrite (@set_nth_same _ _ _ _ H), app_nil_r, Z.sub_0_r.
    destruct s; reflexivity.
  - simpl rev in H. rewrite app_assoc in H.
    assert (Hi : hand_index n t < length (hands s)).
    { apply nth_error_Some. congruence. }
    replace (2 * length (a :: l)) with (S (S (2 * length l))) by (simpl; lia).
    simpl length in C. inversion R as [|? ? Ra Rl]; subst.
    rewrite run_S, (@step_while_push n slap t s (rest ++ rev l) a H) by lia.
    rewrite run_S.
    match goal with
    | |- context [step n slap (mkConfig (AfterPush a) t ?s1)] => set (s' := s1)
    end.
    assert (Hh : nth_error (hands s') (hand_index n t) = Some (rest ++ rev l)).
    { apply nth_error_set_nth_eq. assumption. }
    rewrite (@step_push_plain n slap t s' (rest ++ rev l) a Hh
               (Sl 1 ltac:(simpl; lia)) Ra).
    rewrite (IH s' rest Hh); unfold s'; simp_st.
    + rewrite set_nth_twice, <- app_assoc. simpl app.
      do 3 f_equal. simpl length. lia.
    + lia.
    + assumption.
    + intros k Hk. rewrite <- app_assoc. apply (Sl (S k)). simpl. lia.
Qed.

(** A challenged player who answers every chance with a card that is no
    royal and never makes the pile slappable loses the pile: after the
    last chance the whole pile, the chance cards on top, is put under the
    challenger's hand, and the challenge is closed. *)
Theorem challenge_lost
        (n : nat) (slap : nat -> Z) (t : nat) (s : State)
        (rest : Hand) (l : list Card) (ch : nat) :
  nth_error (hands s) (hand_index n t) = Some (rest ++ rev l) ->
  chances s = Z.of_nat (length l) ->
  challenger s = Some ch -> ch < length (hands s) ->
  Forall plain l ->
  (forall k, 1 <= k <= length l -> slappable (pile s ++ firstn k l) = false) ->
  let hs := Py.set_nth (hand_index n t) rest (hands s) in
  run n slap (2 * length l + 2) (mkConfig AtWhile t s) =
    (mkConfig AtFor (S t)
       (mkState (give_pile hs ch (pile s ++ l)) [] 0 None (slap_calls s)),
     Running) /\
  exists old,
    nth_error hs ch = Some old /\
    nth_error (give_pile hs ch (pile s ++ l)) ch = Some ((pile s ++ l) ++ old).
Proof.
  intros H C Ch L R Sl hs.
  assert (Hi : hand_index n t < length (hands s)).
  { apply nth_error_Some. congruence. }
  assert (Hh : nth_error hs (hand_index n t) = Some rest).
  { apply nth_error_set_nth_eq. assumption. }
  assert (Hl : length hs = length (hands s)) by apply set_nth_length.
  split.
  - rewrite (@run_add n slap (2 * length l) 2 _ _
               (@play_chances n slap t l s rest H ltac:(lia) R Sl)).
    fold hs. rewrite C, Ch, Z.sub_diag.
    rewrite run_S.
    rewrite (@step_while_exit n slap t
               (mkState hs (pile s ++ l) 0 (Some ch) (slap_calls s))
               rest Hh) by (left; simpl; lia).
    rewrite run_S.
    rewrite (@step_after_resolve n slap t
               (mkState hs (pile s ++ l) 0 (Some ch) (slap_calls s))
               rest ch Hh eq_refl eq_refl) by (simpl; lia).
    reflexivity.
  - rewrite <- Hl in L.
    destruct (nth_error hs ch) as [old|] eqn:E.
    + exists old. split; [reflexivity|]. now apply nth_error_give_pile.
    + apply nth_error_None in E. lia.
Qed.

Lemma challenge_lost_witness :
  let s := mkState [[mkCard (Num 2) Clubs];
                    [mkCard (Num 5) Hearts; mkCard (Num 3) Spades; mkCard (Num 4) Diamonds]]
                   [mkCard Queen Clubs] 2 (Some 0) 0 in
  run 2 (always 0) 6 (mkConfig AtWhile 2 s) =
    (mkConfig AtFor 3
       (mkState [[mkCard Queen Clubs; mkCard (Num 4) Diamonds; mkCard (Num 3) Spades;
                  mkCard (Num 2) Clubs];
                 [mkCard (Num 5) Hearts]] [] 0 None 0),
     Running).
Proof.
  intros s.
  refine (proj1
    (@challenge_lost 2 (always 0) 2 s [mkCard (Num 5) Hearts]
       [mkCard (Num 4) Diamonds; mkCard (Num 3) Spades] 0
       eq_refl eq_refl eq_refl _ _ _)).
  - simpl. lia.
  - repeat constructor.
  - intros [|[|[|k]]] Hk; simpl in Hk; try lia; reflexivity.
Defined.

(** A challenged player whose hand runs out before the chances do, with
    cards that are no royals and never make the pile slappable, leaves
    the challenge open: the pile stays, the challenger stays, and the
    next player in turn is left with the chances that remain. *)
Theorem chances_carry_over
        (n : nat) (slap : nat -> Z) (t : nat) (s : State) (l : list Card) :
  nth_error (hands s) (hand_index n t) = Some (rev l) ->
  (Z.of_nat (length l) < chances s)%Z ->
  Forall plain l ->
  (forall k, 1 <= k <= length l -> slappable (pile s ++ firstn k l) = false) ->
  run n slap (2 * length l + 2) (mkConfig AtWhile t s) =
    (mkConfig AtFor (S t)
       (mkState (Py.set_nth (hand_index n t) [] (hands s)) (pile s ++ l)
                (chances s - Z.of_nat (length l)) (challenger s) (slap_calls s)),
     Running).
Proof.
  intros H C R Sl.
  assert (Hi : hand_index n t < length (hands s)).
  { apply nth_error_Some. congruence. }
  rewrite (@run_add n slap (2 * length l) 2 _ _
             (@play_chances n slap t l s [] H ltac:(lia) R Sl)).
  rewrite run_S.
  match goal with
  | |- context [step n slap (mkConfig AtWhile t ?s1)] => set (s' := s1)
  end.
  assert (Hh : nth_error (hands s') (hand_index n t) = Some []).
  { apply nth_error_set_nth_eq. assumption. }
  rewrite (@step_while_exit n slap t s' [] Hh) by (now right).
  rewrite run_S.
  rewrite (@step_after_keep n slap t s' [] Hh) by (unfold s'; simpl; lia).
  reflexivity.
Qed.

Lemma chances_carry_over_witness :
  let s := mkState [[mkCard (Num 2) Clubs];
                    [mkCard (Num 3) Spades; mkCard (Num 4) Diamonds]]
                   [mkCard King Clubs] 3 (Some 0) 0 in
  run 2 (always 0) 6 (mkConfig AtWhile 2 s) =
    (mkConfig AtFor 3
       (mkState [[mkCard (Num 2) Clubs]; []]
                [mkCard King Clubs; mkCard (Num 4) Diamonds; mkCard (Num 3) Spades]
                1 (Some 0) 0),
     Running).
Proof.
  intros s.
  refine (@chances_carry_over 2 (always 0) 2 s
            [mkCard (Num 4) Diamonds; mkCard (Num 3) Spades] eq_refl _ _ _).
  - simpl. lia.
  - repeat constructor.
  - intros [|[|[|k]]] Hk; simpl in Hk; try lia; reflexivity.
Defined.

(** ** The arbiter of the notebook *)

(** One draw of [np.random.multinomial(1, [1/3, 1/3, 1/3])]: the counts
    of three categories after one trial. *)
Definition multinomial_draw (v : list nat) : Prop :=
  length v = 3 /\ list_sum v = 1.

(** [slap()] of the notebook: [np.argmax] of the draw; the [k]-th call
    sees the [k]-th draw. *)
Definition notebook_slap (draws : nat -> list nat) : nat -> Z :=
  fun k => Z.of_nat (Py.argmax (draws k)).

(** The draws that all fall in the third category. *)
Definition third_always : nat -> list nat := fun _ => [0; 0; 1].

Lemma argmax_draw (v : list nat) :
  multinomial_draw v ->
  Py.argmax v < 3 /\ nth (Py.argmax v) v 0 = 1 /\
  forall j, j <> Py.argmax v -> nth j v 0 = 0.
Proof.
  intros [L Sm].
  destruct v as [|a [|b [|c [|d v]]]]; try discriminate L.
  simpl in Sm.
  destruct a as [|[|a]]; destruct b as [|[|b]]; destruct c as [|[|c]];
    try lia; simpl; (split; [lia|split; [reflexivity|]]);
    intros [|[|[|j]]] N; try reflexivity; try (now elim N); destruct j; reflexivity.
Qed.

(** The notebook's [slap] answers 0, 1 or 2, the category drawn: the
    draw counts 1 there and 0 elsewhere. *)
Theorem notebook_slap_range (draws : nat -> list nat) (k : nat) :
  multinomial_draw (draws k) ->
  let a := notebook_slap draws k in
  (0 <= a < 3)%Z /\ nth (Z.to_nat a) (draws k) 0 = 1 /\
  forall j, j <> Z.to_nat a -> nth j (draws k) 0 = 0.
Proof.
  intros D a. unfold a, notebook_slap. rewrite Nat2Z.id.
  destruct (argmax_draw D) as (A & B & C).
  split; [lia|]. split; assumption.
Qed.

Lemma notebook_slap_range_witness :
  (0 <= notebook_slap third_always 0 < 3)%Z.
Proof.
  exact (proj1 (@notebook_slap_range third_always 0 (conj eq_refl eq_refl))).
Defined.

(** With three players or more the notebook's [slap] always names a
    player: the game never raises. *)
Theorem notebook_slap_never_raises
        (shuffle : list Card -> list Card) (num_players : Z)
        (draws : nat -> list nat) (fuel : nat) :
  (3 <= num_players)%Z ->
  Permutation (shuffle new_deck) new_deck ->
  (forall k, multinomial_draw (draws k)) ->
  simulate_game shuffle num_players (notebook_slap draws) fuel = Running \/
  exists t w,
    simulate_game shuffle num_players (notebook_slap draws) fuel = Returned t w /\
    1 <= t /\ w < Z.to_nat num_players.
Proof.
  intros Hn Hs V.
  unfold simulate_game. rewrite simulate_run by lia.
  apply run_never_raises.
  - lia.
  - apply init_wf. lia.
  - intros k. unfold notebook_slap.
    destruct (argmax_draw (V k)) as [A _]. lia.
Qed.

Lemma notebook_slap_never_raises_witness :
  simulate_game no_shuffle 3 (notebook_slap third_always) 100 = Running \/
  exists t w,
    simulate_game no_shuffle 3 (notebook_slap third_always) 100 = Returned t w /\
    1 <= t /\ w < 3.
Proof.
  apply (@notebook_slap_never_raises no_shuffle 3 third_always 100).
  - lia.
  - apply Permutation_refl.
  - intros k. split; reflexivity.
Defined.


(** ** The assertions of the notebook *)

(** Every [assert] that follows [slappable] in its cell holds: the empty
    pile and every one-card pile of the deck are not slappable, and the
    eight two- and three-card piles give what is asserted. *)
Theorem slappable_asserts :
  slappable [] = false /\
  (forall card, In card new_deck -> slappable [card] = false) /\
  slappable [mkCard Queen Diamonds; mkCard Queen Hearts] = true /\
  slappable [mkCard (Num 2) Spades; mkCard (Num 2) Clubs] = true /\
  slappable [mkCard Queen Diamonds; mkCard King Hearts] = false /\
  slappable [mkCard (Num 2) Spades; mkCard (Num 3) Clubs] = false /\
  slappable [mkCard Queen Diamonds; mkCard (Num 2) Spades; mkCard Queen Hearts] = true /\
  slappable [mkCard (Num 2) Spades; mkCard Queen Diamonds; mkCard (Num 2) Clubs] = true /\
  slappable [mkCard Queen Diamonds; mkCard (Num 2) Spades; mkCard King Hearts] = false /\
  slappable [mkCard (Num 2) Spades; mkCard Queen Diamonds; mkCard (Num 3) Clubs] = false.
Proof.
  split; [reflexivity|]. split; [intros card _; reflexivity|].
  repeat (split; try reflexivity).
Qed.
